(** * COLLEGE_PROJECT: the tolerant tabular loader and the result utilities

    A shallow embedding of the pure core of the client-side scripts:

    - [static/js/comparision.js]: [parseCSV], [splitCSVLine], [getVal],
      [normalizeName];
    - the recommendation page script: [safeUrl], [applyClientSort].

    Modelling conventions.

    - A JavaScript string is a [string]: a sequence of 8-bit code units,
      read as the Latin-1 range of UTF-16.  On that range [isSpace],
      [toLowerCase] and [String.compare] agree with the engine's
      [\s] / [trim], [String.prototype.toLowerCase] and [<] on strings.
    - A plain object used as a record is the list of its own enumerable
      properties in [Object.keys] order ([obj]), over the members it
      inherits from [Object.prototype]: the operator [in] and a read see
      them, and an assignment to [__proto__] goes to the inherited setter.
    - A number is a [num]: NaN, the two infinities, or the exact value of a
      finite double.  Only the sign of a difference is ever observed.
    - Arrays live in a [heap]; [slice] allocates, [sort] updates in place.
      The order [Array.prototype.sort] gives is the engine's; the standard
      fixes it where the comparator is consistent, and only there. *)

From Stdlib Require Import Ascii String List Bool Arith NArith Lia.
From Stdlib Require Import Permutation Sorted QArith DecimalString.
Import ListNotations.

Local Open Scope string_scope.
Local Open Scope list_scope.
Local Open Scope nat_scope.

Notation "a +++ b" := (String.append a b) (right associativity, at level 60).

(** ** Code units *)

Module Char.

Definition LF : ascii := ascii_of_nat 10.
Definition CR : ascii := ascii_of_nat 13.
Definition DQUOTE : ascii := ascii_of_nat 34.
Definition COMMA : ascii := ascii_of_nat 44.
Definition SPACE : ascii := ascii_of_nat 32.

Definition code (c : ascii) : N := N_of_ascii c.

Definition between (lo hi : N) (c : ascii) : bool :=
  ((lo <=? code c) && (code c <=? hi))%N.

(** WhiteSpace and LineTerminator of ECMAScript below U+0100: TAB, LF, VT,
    FF, CR, SPACE and NBSP.  Both [trim] and the regex class [\s] use it. *)
Definition isSpace (c : ascii) : bool :=
  between 9 13 c || (code c =? 32)%N || (code c =? 160)%N.

(** Letters with a lowercase partner below U+0100: A-Z, and the Latin-1
    capitals U+00C0..U+00DE without the multiplication sign U+00D7. *)
Definition isUpper (c : ascii) : bool :=
  between 65 90 c || between 192 214 c || between 216 222 c.

Definition toLower (c : ascii) : ascii :=
  if isUpper c then ascii_of_N (code c + 32) else c.

Definition isAsciiLetter (c : ascii) : bool :=
  between 65 90 c || between 97 122 c.

Definition isDigit (c : ascii) : bool := between 48 57 c.

(** The regex class [\w]: [A-Za-z0-9_]. *)
Definition isWord (c : ascii) : bool :=
  isAsciiLetter c || isDigit c || (code c =? 95)%N.

End Char.

(** ** Strings *)

Module Str.

Fixpoint map (f : ascii -> ascii) (s : string) : string :=
  match s with
  | EmptyString => EmptyString
  | String c s' => String (f c) (map f s')
  end.

Fixpoint count (p : ascii -> bool) (s : string) : nat :=
  match s with
  | EmptyString => 0
  | String c s' => (if p c then 1 else 0) + count p s'
  end.

Definition isEmpty (s : string) : bool :=
  match s with EmptyString => true | String _ _ => false end.

(** The first code unit satisfies [p]. *)
Definition headIs (p : ascii -> bool) (s : string) : bool :=
  match s with EmptyString => false | String c _ => p c end.

(** [String.prototype.toLowerCase]. *)
Definition toLowerCase (s : string) : string := map Char.toLower s.

(** [String.prototype.trim], as [trimEnd] after [trimStart]. *)
Fixpoint trimStart (s : string) : string :=
  match s with
  | EmptyString => EmptyString
  | String c s' => if Char.isSpace c then trimStart s' else s
  end.

Fixpoint trimEnd (s : string) : string :=
  match s with
  | EmptyString => EmptyString
  | String c s' =>
      let r := trimEnd s' in
      if Char.isSpace c && isEmpty r then EmptyString else String c r
  end.

Definition trim (s : string) : string := trimEnd (trimStart s).

(** [s.startsWith(p)]. *)
Fixpoint startsWith (p s : string) : bool :=
  match p, s with
  | EmptyString, _ => true
  | String _ _, EmptyString => false
  | String a p', String b s' => Ascii.eqb a b && startsWith p' s'
  end.

(** [s.split(/\r?\n/)]: the pieces between line breaks, a line break being
    LF or CR immediately followed by LF.  Never empty. *)
Fixpoint splitLines (s : string) : list string :=
  match s with
  | EmptyString => [EmptyString]
  | String c s' =>
      if Ascii.eqb c Char.LF then EmptyString :: splitLines s'
      else
        let continue :=
          match splitLines s' with
          | l :: ls => String c l :: ls
          | [] => [String c EmptyString]
          end in
        match s' with
        | String c' s'' =>
            if Ascii.eqb c Char.CR && Ascii.eqb c' Char.LF
            then EmptyString :: splitLines s''
            else continue
        | EmptyString => continue
        end
  end.

(** The number of double-quote code units in [s]: the length of the
    global match of the one-character quote pattern. *)
Definition countQuotes (s : string) : nat :=
  count (Ascii.eqb Char.DQUOTE) s.

Definition snoc (s : string) (c : ascii) : string := s +++ String c EmptyString.

End Str.

(** ** Plain objects *)

Module Obj.

(** Own enumerable string-keyed properties, in [Object.keys] order: array
    indices first, ascending, then the other keys in creation order.  The
    prototype of the object is [Object.prototype]. *)
Definition obj (V : Type) : Type := list (string * V).

Fixpoint digitsValue (acc : N) (s : string) : option N :=
  match s with
  | EmptyString => Some acc
  | String c s' =>
      if Char.isDigit c
      then digitsValue (acc * 10 + (Char.code c - 48))%N s'
      else None
  end.

(** The array index a property key denotes: a canonical decimal numeral
    (no leading zero) below 2^32 - 1. *)
Definition arrayIndex (k : string) : option N :=
  match k with
  | EmptyString => None
  | String c s' =>
      if Ascii.eqb c "0"%char && negb (Str.isEmpty s') then None
      else match digitsValue 0 k with
           | Some n => if (n <? 4294967295)%N then Some n else None
           | None => None
           end
  end.

(** The names of the members of [Object.prototype], as the standard and
    its annex for web browsers give them.  They are not enumerable:
    [Object.keys] never lists them. *)
Definition protoNames : list string :=
  ["constructor"; "hasOwnProperty"; "isPrototypeOf"; "propertyIsEnumerable";
   "toLocaleString"; "toString"; "valueOf"; "__proto__";
   "__defineGetter__"; "__defineSetter__";
   "__lookupGetter__"; "__lookupSetter__"].

(** [k] names a member that every plain object inherits. *)
Definition inherited (k : string) : bool := existsb (String.eqb k) protoNames.

Section Ops.
Context {V : Type}.

Definition keys (o : obj V) : list string := List.map fst o.

(** The own property of [o] under [k], if there is one. *)
Fixpoint lookup (k : string) (o : obj V) : option V :=
  match o with
  | [] => None
  | (k', v) :: o' => if String.eqb k k' then Some v else lookup k o'
  end.

(** [o] has an own property [k]. *)
Definition hasOwn (k : string) (o : obj V) : bool :=
  match lookup k o with Some _ => true | None => false end.

(** [k in o]: an own property, or a member of the prototype. *)
Definition has (k : string) (o : obj V) : bool := hasOwn k o || inherited k.

Fixpoint update (k : string) (v : V) (o : obj V) : obj V :=
  match o with
  | [] => []
  | (k', v') :: o' =>
      if String.eqb k k' then (k', v) :: o' else (k', v') :: update k v o'
  end.

(** A new index key goes before the first key that is not an index or
    is a larger index. *)
Fixpoint insertIndex (n : N) (k : string) (v : V) (o : obj V) : obj V :=
  match o with
  | [] => [(k, v)]
  | (k', v') :: o' =>
      match arrayIndex k' with
      | Some n' =>
          if (n' <? n)%N then (k', v') :: insertIndex n k v o'
          else (k, v) :: o
      | None => (k, v) :: o
      end
  end.

(** The assignment [o[k] = v] of a primitive value [v].  An own property
    is updated.  Otherwise the key [__proto__] reaches the setter that
    [Object.prototype] defines for it, which ignores a value that is
    neither an object nor [null], and [o] stays as it is; under any other
    key, the inherited members being writable data properties, a new own
    property is created. *)
Definition set (k : string) (v : V) (o : obj V) : obj V :=
  if hasOwn k o then update k v o
  else if String.eqb k "__proto__" then o
  else match arrayIndex k with
       | Some n => insertIndex n k v o
       | None => o ++ [(k, v)]
       end.

(** One entry assigned. *)
Definition assign (o : obj V) (kv : string * V) : obj V :=
  set (fst kv) (snd kv) o.

(** Successive assignments to a fresh object. *)
Definition fromEntries (es : list (string * V)) : obj V :=
  fold_left assign es [].

End Ops.

End Obj.

(** ** Values *)

(** A number: NaN, an infinity, or the exact value of a finite double (both
    zeros are [Fin 0]). *)
Inductive num : Type :=
| NaN
| NegInf
| Fin (q : Q)
| PosInf.

Local Set Warnings "-register-all".

(** The values a script meets here: the primitives, the records and arrays
    of a parsed JSON payload, and the built-in objects a property read can
    reach through a prototype, known by name. *)
Inductive value : Type :=
| VUndefined
| VNull
| VBool (b : bool)
| VNum (x : num)
| VStr (s : string)
| VObj (o : list (string * value))
| VArr (a : list value)
| VBuiltin (name : string).

(** The sign of a number, which is all a sort reads of a comparator's
    result. *)
Inductive sgn : Type := Neg | Zero | Pos | SNaN.

(** Built-ins whose results depend on the binary floating-point format, on
    code units above U+00FF, or on the edition of the standard the engine
    implements; the scripts are verified for every engine. *)
Class Engine : Type := {
  (** [Number::toString] on a finite number. *)
  numberToString : Q -> string;
  (** [parseFloat] on a string. *)
  parseFloatString : string -> num;
  (** [StringToNumber], the coercion [<] applies to a string operand. *)
  stringToNumber : string -> num;
  (** [String.prototype.toUpperCase]. *)
  toUpperCase : string -> string;
  (** [String(b)] for the built-in object named [b]. *)
  builtinToString : string -> string;
  (** [v[key]] where [v] is an array, a primitive or a built-in object
      and has no own element or length under [key]: what its prototype
      chain gives, [undefined] when that is nothing. *)
  inheritedProp : value -> string -> value;
  (** [Array.prototype.sort]: the elements of the array in their new
      order, under the comparator given. *)
  arraySort : (value -> value -> sgn) -> list value -> list value
}.

Module Num.

Definition isNaN (x : num) : bool :=
  match x with NaN => true | _ => false end.

Definition isZero (x : num) : bool :=
  match x with Fin q => Qeq_bool q 0 | _ => false end.

(** The sign of the IEEE difference [x - y]: rounding changes its size,
    never its sign; the difference of equal infinities is NaN. *)
Definition subSign (x y : num) : sgn :=
  match x, y with
  | NaN, _ | _, NaN => SNaN
  | PosInf, PosInf | NegInf, NegInf => SNaN
  | PosInf, _ | _, NegInf => Pos
  | NegInf, _ | _, PosInf => Neg
  | Fin p, Fin q =>
      match Qcompare p q with Lt => Neg | Eq => Zero | Gt => Pos end
  end.

(** [x < y] on numbers: false as soon as one side is NaN. *)
Definition ltb (x y : num) : bool :=
  match subSign x y with Neg => true | _ => false end.

End Num.

Module Val.

Definition isNullish (v : value) : bool :=
  match v with VUndefined | VNull => true | _ => false end.

(** [!v]. *)
Definition falsy (v : value) : bool :=
  match v with
  | VUndefined | VNull => true
  | VBool b => negb b
  | VNum x => Num.isNaN x || Num.isZero x
  | VStr s => Str.isEmpty s
  | VObj _ | VArr _ | VBuiltin _ => false
  end.

(** [a ?? b]. *)
Definition coalesce (a b : value) : value :=
  if isNullish a then b else a.

(** [s.replaceAll(" ", "_")]. *)
Definition spacesToUnderscores (s : string) : string :=
  Str.map (fun c => if Ascii.eqb c Char.SPACE then "_"%char else c) s.

(** What a plain object without an own property [key] gives for it: the
    member of [Object.prototype] of that name, or [undefined].  Under
    [__proto__] that is the prototype itself, under [constructor] the
    function [Object]. *)
Definition protoMember (key : string) : value :=
  if Obj.inherited key
  then VBuiltin (if String.eqb key "__proto__" then "Object.prototype"
                 else if String.eqb key "constructor" then "Object"
                 else "Object.prototype." +++ key)
  else VUndefined.

Section WithEngine.
Context {E : Engine}.

(** [v[key]] for a [v] that is neither [undefined] nor [null]: the fields
    of a record, the elements and the length of an array or a string, and
    behind them the members the value inherits. *)
Definition prop (v : value) (key : string) : value :=
  match v with
  | VObj o =>
      match Obj.lookup key o with Some x => x | None => protoMember key end
  | VArr a =>
      if String.eqb key "length"
      then VNum (Fin (inject_Z (Z.of_nat (List.length a))))
      else match Obj.arrayIndex key with
           | Some i =>
               match nth_error a (N.to_nat i) with
               | Some x => x
               | None => inheritedProp v key
               end
           | None => inheritedProp v key
           end
  | VStr s =>
      if String.eqb key "length"
      then VNum (Fin (inject_Z (Z.of_nat (String.length s))))
      else match Obj.arrayIndex key with
           | Some i =>
               match String.get (N.to_nat i) s with
               | Some c => VStr (String c EmptyString)
               | None => inheritedProp v key
               end
           | None => inheritedProp v key
           end
  | VUndefined | VNull => VUndefined
  | _ => inheritedProp v key
  end.

(** [String(v)], which is also the value of the concatenation of the
    empty string with [v]. *)
Fixpoint toStr (v : value) : string :=
  match v with
  | VUndefined => "undefined"
  | VNull => "null"
  | VBool true => "true"
  | VBool false => "false"
  | VNum NaN => "NaN"
  | VNum PosInf => "Infinity"
  | VNum NegInf => "-Infinity"
  | VNum (Fin q) => numberToString q
  | VStr s => s
  | VObj _ => "[object Object]"
  | VArr a =>
      let elt x := if isNullish x then EmptyString else toStr x in
      (fix join (l : list value) : string :=
         match l with
         | [] => EmptyString
         | [x] => elt x
         | x :: l' => elt x +++ "," +++ join l'
         end) a
  | VBuiltin b => builtinToString b
  end.

(** [parseFloat(v)]. *)
Definition parseFloat (v : value) : num := parseFloatString (toStr v).

(** [ToNumber(v)]. *)
Definition toNumber (v : value) : num :=
  match v with
  | VUndefined => NaN
  | VNull => Fin 0
  | VBool b => Fin (if b then 1 else 0)
  | VNum x => x
  | _ => stringToNumber (toStr v)
  end.

(** [a < b]: by code units when both are strings, numeric otherwise. *)
Definition lt (a b : value) : bool :=
  match a, b with
  | VStr x, VStr y => String.ltb x y
  | _, _ => Num.ltb (toNumber a) (toNumber b)
  end.

End WithEngine.

End Val.

(** ** What the standard says of [Array.prototype.sort] *)

Module Sort.

(** [SortCompare]: [undefined] elements go last without a call to the
    comparator; a NaN result counts as zero. *)
Definition sortCompare (cmp : value -> value -> sgn) (x y : value) : sgn :=
  match x, y with
  | VUndefined, VUndefined => Zero
  | VUndefined, _ => Pos
  | _, VUndefined => Neg
  | _, _ => match cmp x y with SNaN => Zero | s => s end
  end.

(** A consistent comparator for the elements of [l]: its result is never
    NaN, every element ties with itself, ties are symmetric, and ties,
    precedence and succession are transitive. *)
Definition consistent (cmp : value -> value -> sgn) (l : list value) : Prop :=
  (forall a b, In a l -> In b l -> cmp a b <> SNaN)
  /\ (forall a, In a l -> cmp a a = Zero)
  /\ (forall a b, In a l -> In b l -> cmp a b = Zero -> cmp b a = Zero)
  /\ (forall s a b c,
        In a l -> In b l -> In c l ->
        cmp a b = s -> cmp b c = s -> cmp a c = s).

(** No element is followed by one that [SortCompare] puts before it. *)
Definition sortedBy (cmp : value -> value -> sgn) (l : list value) : Prop :=
  StronglySorted (fun x y => sortCompare cmp y x <> Neg) l.

Definition ties (cmp : value -> value -> sgn) (x y : value) : bool :=
  match sortCompare cmp x y with Zero => true | _ => false end.

(** Stability: the elements that tie with a given element keep their
    order. *)
Definition keepsTies (cmp : value -> value -> sgn) (l l' : list value) : Prop :=
  forall x, In x l -> filter (ties cmp x) l' = filter (ties cmp x) l.

(** What the standard requires of the method, since the 2019 edition: the
    result holds the elements it was given; under a comparator that is
    consistent for them it is sorted and stable.  Under any other
    comparator the order is left to the implementation. *)
Definition conforming (E : Engine) : Prop :=
  forall cmp l,
    Permutation (arraySort cmp l) l
    /\ (consistent cmp l ->
        sortedBy cmp (arraySort cmp l) /\ keepsTies cmp l (arraySort cmp l)).

End Sort.

(** ** comparision.js *)

(** A row of a table: a plain object whose own properties are strings. *)
Definition Row : Type := Obj.obj string.
Definition Table : Type := list Row.

(** [splitCSVLine]: the loop over the code units of [line] with the state
    [out], [cur], [inQ]; the final [push] happens when the line is used up. *)
Fixpoint splitCSVLine_loop (line : string) (out : list string) (cur : string)
    (inQ : bool) : list string :=
  match line with
  | EmptyString => out ++ [cur]
  | String ch rest =>
      if Ascii.eqb ch Char.DQUOTE then splitCSVLine_loop rest out cur (negb inQ)
      else if Ascii.eqb ch Char.COMMA && negb inQ
           then splitCSVLine_loop rest (out ++ [cur]) EmptyString inQ
           else splitCSVLine_loop rest out (Str.snoc cur ch) inQ
  end.

(** The closing [out.map] replaces [undefined] by the empty string; every
    element pushed is a string, so it maps each one to itself. *)
Definition splitCSVLine (line : string) : list string :=
  List.map (fun s => s) (splitCSVLine_loop line [] EmptyString false).

(** The body of the row-building loop, for one [j]. *)
Definition assignCell (headers cols : list string) (o : Row) (j : nat) : Row :=
  Obj.set (Str.trim (nth j headers EmptyString))
          (match nth_error cols j with
           | Some c => Str.trim c
           | None => EmptyString
           end) o.

(** [for (j = 0; j < headers.length; j++) obj[...] = ...] from [{}]. *)
Definition mkRow (headers cols : list string) : Row :=
  fold_left (assignCell headers cols) (seq 0 (List.length headers)) [].

(** The loop of [parseCSV] over [lines[1..]] with the state [line] (the
    buffer) and [outRows]. *)
Fixpoint parseCSV_loop (headers : list string) (lines : list string)
    (line : string) (outRows : Table) : Table :=
  match lines with
  | [] => outRows
  | l :: rest =>
      let line := line +++ l in
      let openQuotes := Str.countQuotes line in
      if Nat.odd openQuotes
      then parseCSV_loop headers rest (Str.snoc line Char.LF) outRows
      else
        let cols := splitCSVLine line in
        let outRows :=
          if List.length cols =? List.length headers
          then outRows ++ [mkRow headers cols]
          else outRows in
        parseCSV_loop headers rest EmptyString outRows
  end.

Definition parseCSV (text : string) : Table :=
  let lines := Str.splitLines text in
  let headers := splitCSVLine (hd EmptyString lines) in
  parseCSV_loop headers (tl lines) EmptyString [].

(** [row[k]]: the own cell, a string; without one, what the prototype
    gives. *)
Definition cell (row : Row) (k : string) : value :=
  match Obj.lookup k row with
  | Some v => VStr v
  | None => Val.protoMember k
  end.

(** The inner loop of [getVal]: the value at the first key, in
    [Object.keys] order, that equals [lower] once lowercased. *)
Fixpoint scanKeys (row : Row) (lower : string) (ks : list string)
  : option value :=
  match ks with
  | [] => None
  | k :: ks' =>
      if String.eqb (Str.toLowerCase k) lower then Some (cell row k)
      else scanKeys row lower ks'
  end.

(** [getVal(row, names)]. *)
Fixpoint getVal (row : Row) (names : list string) : value :=
  match names with
  | [] => VStr EmptyString
  | n :: rest =>
      if Obj.has n row then cell row n
      else
        match scanKeys row (Str.toLowerCase n) (Obj.keys row) with
        | Some v => v
        | None => getVal row rest
        end
  end.





Section RenderBasicInfo.
Context {E : Engine}.




End RenderBasicInfo.

(** The classes [compareNumericPairs] gives the two cells of the pair [k],
    from the numbers [aVal] and [bVal] parsed from their texts. *)
Definition numEq (x y : num) : bool :=
  match x, y with
  | Fin p, Fin q => Qeq_bool p q
  | PosInf, PosInf | NegInf, NegInf => true
  | _, _ => false
  end.

Definition pairClasses (k : string) (aVal bVal : num) : string * string :=
  if negb (Num.isNaN aVal) && negb (Num.isNaN bVal)
  then
    let inverse := String.eqb k "instRank" in
    if numEq aVal bVal then ("num", "num")
    else if xorb (Num.ltb bVal aVal) inverse
         then ("num higher", "num lower")
         else ("num lower", "num higher")
  else ("num", "num").

(** ** The recommendation page script *)

Module Recommend.

(** *** [safeUrl] *)

(** A unit of the class [[\w\-\.]]. *)
Definition isHostChar (c : ascii) : bool :=
  Char.isWord c || Ascii.eqb c "-"%char || Ascii.eqb c "."%char.

(** [[a-z]{2,}] under the [i] flag, at the head of [s]. *)
Definition twoLetters (s : string) : bool :=
  match s with
  | String c1 (String c2 _) => Char.isAsciiLetter c1 && Char.isAsciiLetter c2
  | _ => false
  end.

(** The rest of the pattern once one unit of the class has been read:
    more units of the class, then a dot and two letters.  Every split of
    the run is tried, as the backtracking matcher does. *)
Fixpoint hostTail (s : string) : bool :=
  match s with
  | EmptyString => false
  | String c s' =>
      (Ascii.eqb c "."%char && twoLetters s') || (isHostChar c && hostTail s')
  end.

(** [url.match(/^[\w\-\.]+\.[a-z]{2,}/i)] is not [null]. *)
Definition domainLike (s : string) : bool :=
  match s with
  | EmptyString => false
  | String c s' => isHostChar c && hostTail s'
  end.

(** [safeUrl(url)]. *)
Definition safeUrl (url : value) : string :=
  match url with
  | VStr s =>
      if Str.isEmpty s then EmptyString
      else
        let url := Str.trim s in
        if Str.startsWith "data:" url
           || Str.startsWith "http://" url
           || Str.startsWith "https://" url
           || Str.startsWith "blob:" url
        then url
        else if Str.startsWith "/" url
                || Str.startsWith "./" url
                || Str.startsWith "../" url
        then url
        else if domainLike url then "https://" +++ url
        else EmptyString
  | _ => EmptyString
  end.

(** *** [esc] *)

(** [s.replaceAll(c, r)] for a pattern of one code unit. *)
Fixpoint replaceAll (c : ascii) (r : string) (s : string) : string :=
  match s with
  | EmptyString => EmptyString
  | String d s' =>
      if Ascii.eqb d c then r +++ replaceAll c r s'
      else String d (replaceAll c r s')
  end.

(** [esc(s)]: a string has its ampersands, then its opening and its
    closing angle brackets replaced; [null] and [undefined] give the empty
    string; any other value is returned as it is. *)
Definition esc (s : value) : value :=
  match s with
  | VStr t =>
      VStr (replaceAll ">"%char "&gt;"
              (replaceAll "<"%char "&lt;"
                 (replaceAll "&"%char "&amp;" t)))
  | VNull | VUndefined => VStr EmptyString
  | _ => s
  end.

(** *** The map helpers *)

(** The longest run of digits at the head of [s], and what follows it. *)
Fixpoint spanDigits (s : string) : string * string :=
  match s with
  | EmptyString => (EmptyString, EmptyString)
  | String c s' =>
      if Char.isDigit c
      then let '(ds, rest) := spanDigits s' in (String c ds, rest)
      else (EmptyString, s)
  end.

(** A match of [-?\d{1,3}\.\d+] at the head of [s], when its last
    quantifier is followed by something that no digit satisfies: the text
    matched and what follows it.  The digits before the dot must be the
    whole run, of one to three; the digits after it are the whole run. *)
Definition coordAt (s : string) : option (string * string) :=
  let '(sign, s1) :=
    match s with
    | String c s' =>
        if Ascii.eqb c "-"%char then ("-", s') else (EmptyString, s)
    | EmptyString => (EmptyString, s)
    end in
  let '(int, s2) := spanDigits s1 in
  if (1 <=? String.length int) && (String.length int <=? 3)
  then
    match s2 with
    | String d s3 =>
        if Ascii.eqb d "."%char
        then
          let '(frac, s4) := spanDigits s3 in
          if Str.isEmpty frac then None
          else Some (sign +++ int +++ String "."%char frac, s4)
        else None
    | EmptyString => None
    end
  else None.

(** A match of the whole pattern at the head of [s]: the two groups. *)
Definition matchAt (s : string) : option (string * string) :=
  match coordAt s with
  | Some (lat, r1) =>
      match Str.trimStart r1 with
      | String c r2 =>
          if Ascii.eqb c ","%char
          then match coordAt (Str.trimStart r2) with
               | Some (lon, _) => Some (lat, lon)
               | None => None
               end
          else None
      | EmptyString => None
      end
  | None => None
  end.

(** [locText.match(regex)]: the leftmost match. *)
Fixpoint search (s : string) : option (string * string) :=
  match matchAt s with
  | Some m => Some m
  | None =>
      match s with
      | EmptyString => None
      | String _ s' => search s'
      end
  end.

(** [parseLatLonFromLocation(locText)]: the object with the fields [lat]
    and [lon], as a pair, or [null], as [None]. *)
Definition parseLatLonFromLocation (locText : value)
  : option (string * string) :=
  match locText with
  | VStr s => if Str.isEmpty s then None else search s
  | _ => None
  end.

(** The characters [encodeURIComponent] leaves as they are. *)
Definition isUnreserved (c : ascii) : bool :=
  Char.isAsciiLetter c || Char.isDigit c
  || existsb (Ascii.eqb c)
       ["-"%char; "_"%char; "."%char; "!"%char; "~"%char; "*"%char;
        "'"%char; "("%char; ")"%char].

Definition hexDigit (n : N) : ascii :=
  if (n <? 10)%N then ascii_of_N (48 + n) else ascii_of_N (55 + n).

(** A byte, percent-encoded. *)
Definition percent (b : N) : string :=
  String "%"%char
    (String (hexDigit (b / 16)) (String (hexDigit (b mod 16)) EmptyString)).

(** [encodeURIComponent(s)]: the bytes of the UTF-8 form of every other
    code unit, percent-encoded; below U+0100 that is one byte up to U+007F
    and two bytes above. *)
Fixpoint encodeURIComponent (s : string) : string :=
  match s with
  | EmptyString => EmptyString
  | String c s' =>
      (if isUnreserved c then String c EmptyString
       else if (Char.code c <? 128)%N then percent (Char.code c)
       else percent (192 + Char.code c / 64)
            +++ percent (128 + Char.code c mod 64))
      +++ encodeURIComponent s'
  end.

(** [a || b]. *)
Definition orElse (a b : value) : value := if Val.falsy a then b else a.

Definition mapsBase : string := "https://www.google.com/maps?q=".
Definition mapsTail : string := "&output=embed".

(** How a call of [mapsEmbedUrlForItem] ends: with the address it
    returns; with the [TypeError] of a property read from [null] or
    [undefined] or of a call of something that is no function; or in the
    call of a function that the location holds under [trim], which is
    followed no further. *)
Inductive outcome : Type :=
| Returns (url : string)
| Throws
| CallsTrim (f : string).

(** [mapsEmbedUrlForItem(item)]. *)
Definition mapsEmbedUrlForItem {E : Engine} (item : value) : outcome :=
  if Val.isNullish item then Throws
  else
    let loc :=
      orElse (Val.prop item "Location")
        (orElse (Val.prop item "Location")
           (orElse (Val.prop item "District")
              (orElse (Val.prop item "District") (VStr EmptyString)))) in
    let byName :=
      let name :=
        orElse (Val.prop item "Institute")
          (orElse (Val.prop item "Institute") (VStr EmptyString)) in
      Returns (mapsBase +++ encodeURIComponent (Val.toStr name) +++ mapsTail)
    in
    match parseLatLonFromLocation loc with
    | Some (lat, lon) =>
        Returns (mapsBase +++ lat +++ "," +++ lon +++ mapsTail)
    | None =>
        if Val.falsy loc then byName
        else match loc with
             | VStr s =>
                 if negb (Str.isEmpty (Str.trim s))
                 then Returns (mapsBase +++ encodeURIComponent s +++ mapsTail)
                 else byName
             | _ =>
                 match Val.prop loc "trim" with
                 | VBuiltin f => CallsTrim f
                 | _ => Throws
                 end
             end
    end.

(** *** [applyClientSort] *)

Definition includes (l : list string) (s : string) : bool :=
  existsb (String.eqb s) l.

Definition rankMetrics : list string :=
  ["Predicted Closing Rank"; "Closing Rank"; "PredictedClosingRank"].

Definition descendingByDefault : list string :=
  ["Max Average CTC"; "placement_score"; "overall_aspect_score";
   "professor_score"; "mess_score"].

Definition orderDesc (metric : string) : bool :=
  if includes descendingByDefault metric then true
  else negb (includes rankMetrics metric).

Definition isNull (v : value) : bool :=
  match v with VNull => true | _ => false end.

Definition isNumber (v : value) : bool :=
  match v with VNum _ => true | _ => false end.

(** The test that sends the accessor to the rank fields. *)
Definition isRankKey (key : string) : bool :=
  String.eqb key "Predicted Closing Rank"
  || String.eqb key "PredictedClosingRank"
  || String.eqb key "Closing Rank".

(** [val] is [undefined], [null] or the empty string. *)
Definition isBlank (val : value) : bool :=
  Val.isNullish val
  || match val with VStr s => Str.isEmpty s | _ => false end.

(** The array objects of the page, by address. *)
Definition heap : Type := list (list value).
Definition ref : Type := nat.

Definition read (r : ref) (h : heap) : list value := nth r h [].

Fixpoint write (r : ref) (a : list value) (h : heap) : heap :=
  match h, r with
  | [], _ => []
  | _ :: h', O => a :: h'
  | x :: h', S r' => x :: write r' a h'
  end.

(** A new array object with the elements [a]. *)
Definition alloc (a : list value) (h : heap) : ref * heap :=
  (List.length h, h ++ [a]).

(** [r.slice()]. *)
Definition slice (r : ref) (h : heap) : ref * heap := alloc (read r h) h.

Section WithEngine.
Context {E : Engine}.

(** The rank read by the accessor: the first of the three rank fields
    that is neither [undefined] nor [null], else [Infinity]. *)
Definition rankValue (obj : value) : value :=
  Val.coalesce
    (Val.coalesce
       (Val.coalesce (Val.prop obj "Predicted Closing Rank")
                     (Val.prop obj "Closing Rank"))
       (Val.prop obj "PredictedClosingRank"))
    (VNum PosInf).

(** The value read for any other metric: under the key as it stands,
    with underscores for spaces, lowercased, or uppercased. *)
Definition metricValue (obj : value) (key : string) : value :=
  Val.coalesce
    (Val.coalesce
       (Val.coalesce (Val.prop obj key)
                     (Val.prop obj (Val.spacesToUnderscores key)))
       (Val.prop obj (Str.toLowerCase key)))
    (Val.prop obj (toUpperCase key)).

(** The accessor local to the comparator. *)
Definition getVal (obj : value) (key : string) : value :=
  if Val.falsy obj then VNull
  else if isRankKey key
  then VNum (Val.parseFloat (rankValue obj))
  else
    let val := metricValue obj key in
    if isBlank val then VNull
    else
      let n := Val.parseFloat val in
      if Num.isNaN n then VStr (Str.toLowerCase (Val.toStr val))
      else VNum n.

(** The comparator handed to [sort]. *)
Definition compareFn (metric : string) (a b : value) : sgn :=
  let va := getVal a metric in
  let vb := getVal b metric in
  if isNull va && isNull vb then Zero
  else if isNull va then Pos
  else if isNull vb then Neg
  else if isNumber va && isNumber vb
  then if orderDesc metric
       then Num.subSign (Val.toNumber vb) (Val.toNumber va)
       else Num.subSign (Val.toNumber va) (Val.toNumber vb)
  else if Val.lt va vb then (if orderDesc metric then Pos else Neg)
  else if Val.lt vb va then (if orderDesc metric then Neg else Pos)
  else Zero.

(** [r.sort(cmp)]: the array object at [r] is reordered in place, as the
    engine orders it. *)
Definition sortInPlace (cmp : value -> value -> sgn) (r : ref) (h : heap)
  : heap :=
  write r (arraySort cmp (read r h)) h.

(** [applyClientSort(results)].  [sel] is the value of the
    [client_sort_metric] control; [results] is an array object or, as
    [None], [null] or [undefined].  Returns the address of [arr]. *)
Definition applyClientSort (sel : string) (results : option ref)
    (h : heap) : ref * heap :=
  let '(src, h) :=
    match results with
    | Some r => (r, h)
    | None => alloc [] h
    end in
  let '(arr, h) := slice src h in
  let metric :=
    if Str.isEmpty sel then "Predicted Closing Rank" else sel in
  (arr, sortInPlace (compareFn metric) arr h).

End WithEngine.

End Recommend.

(** ** The sign-in dialog *)

Module Auth.

(** What the script keeps and shows: the mode, the [display] style of the
    dialog, the text of the submit button, and the two texts of the line
    that offers the other mode. *)
Record state : Type := {
  isLoginMode : bool;
  display : string;
  submitText : string;
  toggleText : string;
  linkText : string
}.

(** What a handler does to the world outside the dialog. *)
Inductive effect : Type :=
| Alert (message : string)
| Reload
| Post (endpoint : string).

(** The texts written for a mode. *)
Definition labelled (mode : bool) (d : string) : state := {|
  isLoginMode := mode;
  display := d;
  submitText := if mode then "Login" else "Sign Up";
  toggleText := if mode then "New user?" else "Already have an account?";
  linkText := if mode then "Sign Up" else "Login"
|}.

(** [toggleAuthMode()]. *)
Definition toggleAuthMode (st : state) : state :=
  labelled (negb (isLoginMode st)) (display st).

(** [openModal(mode)]. *)
Definition openModal (mode : string) (st : state) : state :=
  labelled (String.eqb mode "login") "flex".

(** The two handlers that close the dialog. *)
Definition closeModal (st : state) : state := {|
  isLoginMode := isLoginMode st;
  display := "none";
  submitText := submitText st;
  toggleText := toggleText st;
  linkText := linkText st
|}.

(** The events the script listens to: clicks on the two buttons of the
    page, on the offer to change mode, on the close button and on the
    backdrop; the form being submitted; and the answer of the server
    coming in, with its [success] flag and its message. *)
Inductive event : Type :=
| ClickLogin
| ClickSignup
| ClickToggle
| ClickClose
| ClickBackdrop
| Submit
| Response (success : bool) (message : string).

Definition step (ev : event) (st : state) : state * list effect :=
  match ev with
  | ClickLogin => (openModal "login" st, [])
  | ClickSignup => (openModal "signup" st, [])
  | ClickToggle => (toggleAuthMode st, [])
  | ClickClose | ClickBackdrop => (closeModal st, [])
  | Submit => (st, [Post (if isLoginMode st then "/login" else "/signup")])
  | Response success message =>
      if success && isLoginMode st then (st, [Alert message; Reload])
      else if success && negb (isLoginMode st)
      then (openModal "login" st, [Alert message])
      else (st, [Alert message])
  end.

Fixpoint run (evs : list event) (st : state) : state * list effect :=
  match evs with
  | [] => (st, [])
  | ev :: evs' =>
      let '(st1, out1) := step ev st in
      let '(st2, out2) := run evs' st1 in
      (st2, out1 ++ out2)
  end.

End Auth.

(** ** The sort controls of the recommendation page *)

Module Controls.
Import Recommend.

(** What the two buttons work on: the arrays of the page, the array
    [LAST_RESULTS] names, the value of the control [client_sort_metric],
    and the array last handed to [renderResultsList]. *)
Record page : Type := {
  arrays : heap;
  LAST_RESULTS : ref;
  metric : string;
  displayed : ref
}.

Inductive click : Type :=
| Choose (value : string)
| Apply
| Reset.

Section WithEngine.
Context {E : Engine}.

(** The listeners of [apply_client_sort] and [reset_client_sort], and the
    choice of a metric in the control. *)
Definition step (c : click) (p : page) : page :=
  match c with
  | Choose v =>
      {| arrays := arrays p; LAST_RESULTS := LAST_RESULTS p;
         metric := v; displayed := displayed p |}
  | Apply =>
      let '(arr, h) :=
        applyClientSort (metric p) (Some (LAST_RESULTS p)) (arrays p) in
      {| arrays := h; LAST_RESULTS := LAST_RESULTS p;
         metric := metric p; displayed := arr |}
  | Reset =>
      {| arrays := arrays p; LAST_RESULTS := LAST_RESULTS p;
         metric := "Predicted Closing Rank";
         displayed := LAST_RESULTS p |}
  end.

Definition run (cs : list click) (p : page) : page :=
  fold_left (fun q c => step c q) cs p.

End WithEngine.

End Controls.

(** ** Notions the properties are stated with *)

(** The comma-separated fields of a line, with no regard for quotes. *)
Fixpoint splitCommas (s : string) : list string :=
  match s with
  | EmptyString => [EmptyString]
  | String c s' =>
      if Ascii.eqb c Char.COMMA then EmptyString :: splitCommas s'
      else match splitCommas s' with
           | f :: fs => String c f :: fs
           | [] => [String c EmptyString]
           end
  end.

(** Physical lines joined by single line feeds. *)
Fixpoint joinLF (ls : list string) : string :=
  match ls with
  | [] => EmptyString
  | [l] => l
  | l :: ls' => l +++ String Char.LF (joinLF ls')
  end.

(** [logical_record buf ls r]: with [buf] already read, the physical lines
    [ls] complete exactly one record, whose text is [r]: a quote is open at
    the end of every line but the last. *)
Inductive logical_record : string -> list string -> string -> Prop :=
| lr_last buf l :
    Nat.even (Str.countQuotes (buf +++ l)) = true ->
    logical_record buf [l] (buf +++ l)
| lr_more buf l ls r :
    Nat.odd (Str.countQuotes (buf +++ l)) = true ->
    logical_record (Str.snoc (buf +++ l) Char.LF) ls r ->
    logical_record buf (l :: ls) r.

(** [records ls rs]: the physical lines [ls] are the complete records [rs],
    one after the other. *)
Inductive records : list string -> list string -> Prop :=
| recs_nil : records [] []
| recs_cons rec r rest rs :
    logical_record EmptyString rec r ->
    records rest rs ->
    records (rec ++ rest) (r :: rs).

(** The rows [parseCSV] builds from body lines, under given headers. *)
Definition rowsOf (headers : list string) (lines : list string) : Table :=
  parseCSV_loop headers lines EmptyString [].

(** The row of one record. *)
Definition rowOfRecord (headers : list string) (r : string) : Row :=
  mkRow headers (splitCSVLine r).

(** The row with the cells (trimmed name, trimmed field), column by
    column. *)
Definition rowOfFields (names fields : list string) : Row :=
  Obj.fromEntries (combine (List.map Str.trim names) (List.map Str.trim fields)).

(** The row of a line without quotes, under a header line without
    quotes. *)
Definition rowOfLine (h l : string) : Row :=
  rowOfFields (splitCommas h) (splitCommas l).

(** The record has as many quote-aware fields as the header. *)
Definition wellFormed (headers : list string) (r : string) : bool :=
  List.length (splitCSVLine r) =? List.length headers.

(** The pieces a text falls into at its line breaks, when the text ends
    in a line break or not: after a final line break comes one more,
    empty, piece. *)
Definition pieces (h : string) (body : list string) (final : bool)
  : list string :=
  h :: body ++ (if final then [EmptyString] else []).

(** Nothing but whitespace. *)
Definition blank (s : string) : bool :=
  Str.count (fun c => negb (Char.isSpace c)) s =? 0.

(** The last code unit satisfies [p]. *)
Fixpoint lastIs (p : ascii -> bool) (s : string) : bool :=
  match s with
  | EmptyString => false
  | String c EmptyString => p c
  | String _ s' => lastIs p s'
  end.

(** [t] is [s] without its leading and trailing whitespace: [s] is [t]
    between two runs of whitespace, and [t] neither starts nor ends with
    whitespace. *)
Definition trimmedOf (s t : string) : Prop :=
  exists a b,
    s = a +++ t +++ b
    /\ blank a = true /\ blank b = true
    /\ Str.headIs Char.isSpace t = false
    /\ lastIs Char.isSpace t = false.

(** A capital letter of the Latin-1 range, by its code: A to Z, and
    U+00C0 to U+00DE but for the multiplication sign. *)
Definition capital (c : ascii) : bool :=
  let n := N_of_ascii c in
  (((65 <=? n) && (n <=? 90))
   || ((192 <=? n) && (n <=? 222) && negb (n =? 215)))%N.

(** The same letter, in either case: the small letter of a capital is 32
    code points above it. *)
Definition sameLetter (c d : ascii) : bool :=
  Ascii.eqb c d
  || (capital c && (N_of_ascii d =? N_of_ascii c + 32)%N)
  || (capital d && (N_of_ascii c =? N_of_ascii d + 32)%N).

(** Two strings that differ only in letter case. *)
Fixpoint sameText (s t : string) : bool :=
  match s, t with
  | EmptyString, EmptyString => true
  | String c s', String d t' => sameLetter c d && sameText s' t'
  | _, _ => false
  end.









(** The array [applyClientSort] is given: none for [null] or [undefined]. *)
Definition inputOf (results : option Recommend.ref) (h : Recommend.heap)
  : list value :=
  match results with Some r => Recommend.read r h | None => [] end.

(** The argument, when an array, is an array of the heap. *)
Definition live (results : option Recommend.ref) (h : Recommend.heap) : Prop :=
  match results with Some r => r < List.length h | None => True end.

(** The metric the comparator sorts by. *)
Definition metricOf (sel : string) : string :=
  if Str.isEmpty sel then "Predicted Closing Rank" else sel.

(** The element has no value for the metric: it is itself falsy, or, for a
    metric other than the rank, the field read is [undefined], [null] or
    the empty string. *)
Definition missing {E : Engine} (metric : string) (v : value) : bool :=
  Val.falsy v
  || (negb (Recommend.isRankKey metric)
      && Recommend.isBlank (Recommend.metricValue v metric)).

(** The value the element has for the metric parses as a finite number:
    the rank read, for a rank metric, the field read otherwise. *)
Definition finiteValue {E : Engine} (metric : string) (v : value) : bool :=
  negb (missing metric v)
  && match Val.parseFloat (if Recommend.isRankKey metric
                           then Recommend.rankValue v
                           else Recommend.metricValue v metric) with
     | Fin _ => true
     | _ => false
     end.

Definition isUndefined (v : value) : bool :=
  match v with VUndefined => true | _ => false end.


(** The prefixes under which [safeUrl] returns its argument. *)
Definition allowedPrefixes : list string :=
  ["data:"; "http://"; "https://"; "blob:"; "/"; "./"; "../"].

(** The schemes among them. *)
Definition allowedSchemes : list string := ["data"; "http"; "https"; "blob"].

(** A unit of a URI scheme name (RFC 3986): a letter, a digit, or one of
    plus, minus and dot. *)
Definition isSchemeChar (c : ascii) : bool :=
  Char.isAsciiLetter c || Char.isDigit c
  || Ascii.eqb c "+"%char || Ascii.eqb c "-"%char || Ascii.eqb c "."%char.

(** A scheme name: a letter, then scheme units. *)
Definition validScheme (name : string) : bool :=
  match name with
  | EmptyString => false
  | String c rest =>
      Char.isAsciiLetter c
      && (Str.count (fun d => negb (isSchemeChar d)) rest =? 0)
  end.

Definition dotless (name : string) : bool :=
  Str.count (Ascii.eqb "."%char) name =? 0.

(** ** A reference engine

    Decimal integer numerals only; on them, and on text that starts with no
    numeral, it computes what every engine computes.  Of the built-in
    prototypes it knows [Object.prototype], whose members it gives to every
    value.  It sorts by insertion.  It instantiates the engine in closed
    examples. *)

Module IntEngine.

Fixpoint leadingDigits (s : string) : string :=
  match s with
  | EmptyString => EmptyString
  | String c s' =>
      if Char.isDigit c then String c (leadingDigits s') else EmptyString
  end.

Definition unsignedPrefix (s : string) : option num :=
  if Str.startsWith "Infinity" s then Some PosInf
  else match leadingDigits s with
       | EmptyString => None
       | ds => match Obj.digitsValue 0 ds with
               | Some n => Some (Fin (inject_Z (Z.of_N n)))
               | None => None
               end
       end.

Definition negate (x : num) : num :=
  match x with
  | NaN => NaN
  | NegInf => PosInf
  | PosInf => NegInf
  | Fin q => Fin (Qopp q)
  end.

Definition signedPrefix (s : string) : num :=
  match s with
  | String "-"%char s' =>
      match unsignedPrefix s' with Some x => negate x | None => NaN end
  | String "+"%char s' =>
      match unsignedPrefix s' with Some x => x | None => NaN end
  | _ => match unsignedPrefix s with Some x => x | None => NaN end
  end.

Definition parseFloatString (s : string) : num :=
  signedPrefix (Str.trimStart s).

Definition stringToNumber (s : string) : num :=
  let t := Str.trim s in
  if Str.isEmpty t then Fin 0
  else
    let body := match t with
                | String "-"%char t' | String "+"%char t' => t'
                | _ => t
                end in
    if String.eqb body "Infinity" || String.eqb body (leadingDigits body)
    then signedPrefix t
    else NaN.

Definition numberToString (q : Q) : string :=
  NilEmpty.string_of_int (Z.to_int (Qnum q / Zpos (Qden q))).

Definition isLower (c : ascii) : bool :=
  Char.between 97 122 c || Char.between 224 246 c || Char.between 248 254 c.

Definition toUpperCase (s : string) : string :=
  Str.map (fun c => if isLower c then ascii_of_N (Char.code c - 32) else c) s.

(** What follows the last dot of a name. *)
Fixpoint lastPart (acc s : string) : string :=
  match s with
  | EmptyString => acc
  | String c s' =>
      if Ascii.eqb c "."%char then lastPart EmptyString s'
      else lastPart (Str.snoc acc c) s'
  end.

Definition builtinToString (b : string) : string :=
  if String.eqb b "Object.prototype" then "[object Object]"
  else "function " +++ lastPart EmptyString b +++ "() { [native code] }".

Definition inheritedProp (v : value) (key : string) : value :=
  Val.protoMember key.

(** [x] must come after [y]. *)
Definition sortAfter (cmp : value -> value -> sgn) (x y : value) : bool :=
  match Sort.sortCompare cmp x y with Pos => true | _ => false end.

(** The stable insertion sort: an element goes before the first one it
    need not come after. *)
Fixpoint insert (cmp : value -> value -> sgn) (x : value) (l : list value)
  : list value :=
  match l with
  | [] => [x]
  | y :: l' => if sortAfter cmp x y then y :: insert cmp x l' else x :: l
  end.

Fixpoint sort (cmp : value -> value -> sgn) (l : list value) : list value :=
  match l with
  | [] => []
  | x :: l' => insert cmp x (sort cmp l')
  end.

End IntEngine.

Definition intEngine : Engine := {|
  numberToString := IntEngine.numberToString;
  parseFloatString := IntEngine.parseFloatString;
  stringToNumber := IntEngine.stringToNumber;
  toUpperCase := IntEngine.toUpperCase;
  builtinToString := IntEngine.builtinToString;
  inheritedProp := IntEngine.inheritedProp;
  arraySort := IntEngine.sort
|}.

(** ** Sample inputs *)

(** The two-row table of the specification. *)
Definition exampleCSV : string :=
  "Institute,Program" +++ String Char.LF ("A,X" +++ String Char.LF "B,Y").

(** The same table with whitespace around names and fields, tabs
    included, under line breaks of both kinds and with a final one. *)
Definition spacedCSV : string :=
  " Institute , Program " +++ String Char.CR (String Char.LF
    ("A ," +++ String (ascii_of_nat 9) ("X" +++ String Char.LF
       ("  B,Y  " +++ String Char.LF EmptyString)))).

(** One column, and a line break after the last line. *)
Definition oneColumnCSV : string :=
  "a" +++ String Char.LF ("1" +++ String Char.LF EmptyString).

(** A column named like the accessor of the prototype. *)
Definition protoCSV : string :=
  "__proto__,b" +++ String Char.LF "1,2".

(** A record whose quoted field runs over two lines, and a table with a
    one-field line under a two-column header. *)
Definition multilineCSV : string :=
  "a,b" +++ String Char.LF
    ("1," +++ String Char.DQUOTE ("x" +++ String Char.LF
       ("y" +++ String Char.DQUOTE (String Char.LF "2,z")))).

Definition shortMultilineCSV : string :=
  "a,b" +++ String Char.LF
    (String Char.DQUOTE ("x" +++ String Char.LF
       ("y" +++ String Char.DQUOTE EmptyString))).

Definition raggedCSV : string :=
  "a,b" +++ String Char.LF
    ("1,2" +++ String Char.LF ("3" +++ String Char.LF "4,5")).

Definition scoreFive : value := VObj [("placement_score", VStr "5")].
Definition scoreSeven : value := VObj [("placement_score", VNum (Fin 7))].


(** ** Further notions *)






(** The header names of a text, as [parseCSV] reads them. *)
Definition headersOf (text : string) : list string :=
  splitCSVLine (hd EmptyString (Str.splitLines text)).

(** The entity [esc] writes for a code unit, if any. *)
Definition entity (c : ascii) : string :=
  if Ascii.eqb c "&"%char then "&amp;"
  else if Ascii.eqb c "<"%char then "&lt;"
  else if Ascii.eqb c ">"%char then "&gt;"
  else String c EmptyString.

(** A text with each of its code units written as its entity. *)
Fixpoint entities (t : string) : string :=
  match t with
  | EmptyString => EmptyString
  | String c t' => entity c +++ entities t'
  end.

(** What a browser reads back from escaped text: the three entities
    become the code units they stand for, read from left to right. *)
Fixpoint unescape (s : string) : string :=
  match s with
  | EmptyString => EmptyString
  | String c s' =>
      if Ascii.eqb c "&"%char then
        match s' with
        | String c1 (String c2 (String c3 r3)) =>
            if Ascii.eqb c1 "l"%char && Ascii.eqb c2 "t"%char
               && Ascii.eqb c3 ";"%char
            then String "<"%char (unescape r3)
            else if Ascii.eqb c1 "g"%char && Ascii.eqb c2 "t"%char
                    && Ascii.eqb c3 ";"%char
            then String ">"%char (unescape r3)
            else
              match r3 with
              | String c4 r4 =>
                  if Ascii.eqb c1 "a"%char && Ascii.eqb c2 "m"%char
                     && Ascii.eqb c3 "p"%char && Ascii.eqb c4 ";"%char
                  then String "&"%char (unescape r4)
                  else String c (unescape s')
              | EmptyString => String c (unescape s')
              end
        | _ => String c (unescape s')
        end
      else String c (unescape s')
  end.

(** The dialog shows what its mode says. *)
Definition agrees (st : Auth.state) : Prop :=
  st = Auth.labelled (Auth.isLoginMode st) (Auth.display st).

(** The event sets the mode and writes the texts for it. *)
Definition setsMode (ev : Auth.event) : bool :=
  match ev with
  | Auth.ClickLogin | Auth.ClickSignup | Auth.ClickToggle => true
  | _ => false
  end.

(** The endpoint a submission would go to. *)
Definition endpointOf (st : Auth.state) : string :=
  if Auth.isLoginMode st then "/login" else "/signup".

(** A run of one or more digits. *)
Definition allDigits (s : string) : bool :=
  negb (Str.isEmpty s) && (Str.count (fun c => negb (Char.isDigit c)) s =? 0).

(** A decimal coordinate: an optional minus sign, one to three digits, a
    dot, and digits. *)
Definition coordShape (t : string) : Prop :=
  exists sign int frac,
    t = sign +++ int +++ String "."%char frac
    /\ (sign = EmptyString \/ sign = "-")
    /\ allDigits int = true /\ String.length int <= 3
    /\ allDigits frac = true.

(** The characters that would end or split the value of a query
    parameter, or open markup: the ampersand, the equals sign, the hash,
    the question mark, the plus sign, the space, the double quote and the
    angle brackets. *)
Definition breaksQuery (c : ascii) : bool :=
  existsb (Ascii.eqb c)
    ["&"%char; "="%char; "#"%char; "?"%char; "+"%char; " "%char;
     Char.DQUOTE; "<"%char; ">"%char].

(** [item.Location || item.District || ""], the location the map helper
    works from. *)
Definition locationOf {E : Engine} (item : value) : value :=
  Recommend.orElse (Val.prop item "Location")
    (Recommend.orElse (Val.prop item "District") (VStr EmptyString)).






(** * Properties *)

#[local] Arguments Ascii.eqb : simpl never.
#[local] Arguments String.eqb : simpl never.
#[local] Arguments Char.isSpace : simpl never.
#[local] Arguments Char.toLower : simpl never.
#[local] Arguments Char.isWord : simpl never.
#[local] Arguments Char.isAsciiLetter : simpl never.
#[local] Arguments Char.isDigit : simpl never.

(** ** Strings and code units *)

Section StringFacts.

Lemma append_empty_r (s : string) : s +++ EmptyString = s.
Proof. induction s as [|c s IH]; simpl; [reflexivity | now rewrite IH]. Qed.

Lemma append_assoc (a b c : string) : (a +++ b) +++ c = a +++ (b +++ c).
Proof. induction a as [|x a IH]; simpl; [reflexivity | now rewrite IH]. Qed.

Lemma snoc_append (a : string) (c : ascii) (b : string) :
  Str.snoc a c +++ b = a +++ String c b.
Proof. unfold Str.snoc. now rewrite append_assoc. Qed.

Lemma count_append (p : ascii -> bool) (a b : string) :
  Str.count p (a +++ b) = Str.count p a + Str.count p b.
Proof. induction a as [|x a IH]; simpl; [reflexivity | rewrite IH; lia]. Qed.

Lemma count_snoc (p : ascii -> bool) (a : string) (c : ascii) :
  Str.count p (Str.snoc a c) = Str.count p a + (if p c then 1 else 0).
Proof. unfold Str.snoc. rewrite count_append. simpl. lia. Qed.

Lemma count_trimStart (p : ascii -> bool) (s : string) :
  Str.count p (Str.trimStart s) <= Str.count p s.
Proof.
  induction s as [|c s IH]; simpl; [lia|].
  destruct (Char.isSpace c); simpl; lia.
Qed.

Lemma count_trimEnd (p : ascii -> bool) (s : string) :
  Str.count p (Str.trimEnd s) <= Str.count p s.
Proof.
  induction s as [|c s IH]; simpl; [lia|].
  destruct (Char.isSpace c && Str.isEmpty (Str.trimEnd s)); simpl; lia.
Qed.

Lemma count_trim (p : ascii -> bool) (s : string) :
  Str.count p (Str.trim s) <= Str.count p s.
Proof.
  unfold Str.trim.
  etransitivity; [apply count_trimEnd | apply count_trimStart].
Qed.





(** [N_of_ascii] is one to one. *)
Lemma code_inj (c d : ascii) : N_of_ascii c = N_of_ascii d -> c = d.
Proof.
  intros H. rewrite <- (ascii_N_embedding c), <- (ascii_N_embedding d).
  now rewrite H.
Qed.

(** A capital is sent 32 code points up, to a letter that is no capital;
    anything else stays. *)
Lemma toLower_capital (c : ascii) :
  capital c = true ->
  N_of_ascii (Char.toLower c) = (N_of_ascii c + 32)%N
  /\ capital (Char.toLower c) = false.
Proof.
  destruct c as [[] [] [] [] [] [] [] []]; vm_compute;
    intros H; try discriminate H; split; reflexivity.
Qed.

Lemma toLower_other (c : ascii) : capital c = false -> Char.toLower c = c.
Proof.
  destruct c as [[] [] [] [] [] [] [] []]; vm_compute;
    intros H; try discriminate H; reflexivity.
Qed.


(** Two letters are the same up to case exactly when lowercasing makes
    them equal. *)
Lemma sameLetter_toLower (c d : ascii) :
  sameLetter c d = true <-> Char.toLower c = Char.toLower d.
Proof.
  unfold sameLetter. rewrite !orb_true_iff, !andb_true_iff, !N.eqb_eq.
  split.
  - intros [[H|[Hc H]]|[Hd H]].
    + apply Ascii.eqb_eq in H. now subst.
    + destruct (toLower_capital c Hc) as [E1 E2].
      assert (Char.toLower c = d) by (apply code_inj; congruence).
      subst d. now rewrite (toLower_other _ E2).
    + destruct (toLower_capital d Hd) as [E1 E2].
      assert (Char.toLower d = c) by (apply code_inj; congruence).
      subst c. now rewrite (toLower_other _ E2).
  - intros H.
    destruct (capital c) eqn:Hc, (capital d) eqn:Hd.
    + left. left. apply Ascii.eqb_eq. apply code_inj.
      destruct (toLower_capital c Hc) as [E1 _].
      destruct (toLower_capital d Hd) as [E2 _].
      rewrite H in E1. rewrite E1 in E2. lia.
    + left. right. split; [reflexivity|].
      destruct (toLower_capital c Hc) as [E1 _].
      now rewrite H, (toLower_other _ Hd) in E1.
    + right. split; [reflexivity|].
      destruct (toLower_capital d Hd) as [E1 _].
      now rewrite <- H, (toLower_other _ Hc) in E1.
    + left. left. apply Ascii.eqb_eq.
      now rewrite (toLower_other _ Hc), (toLower_other _ Hd) in H.
Qed.

Lemma sameText_toLowerCase (s t : string) :
  sameText s t = true <-> Str.toLowerCase s = Str.toLowerCase t.
Proof.
  revert t. induction s as [|c s IH]; intros [|d t]; simpl;
    try (split; [reflexivity | reflexivity]);
    try (split; discriminate).
  rewrite andb_true_iff, sameLetter_toLower, IH.
  unfold Str.toLowerCase. simpl.
  split; [intros [H1 H2]; congruence | intros [= H1 H2]; auto].
Qed.


(** *** Trimming *)

Lemma blank_app (a b : string) : blank (a +++ b) = blank a && blank b.
Proof.
  unfold blank. rewrite count_append.
  destruct (Str.count _ a), (Str.count _ b); reflexivity.
Qed.

Lemma blank_cons (c : ascii) (s : string) :
  blank (String c s) = Char.isSpace c && blank s.
Proof. unfold blank. simpl. now destruct (Char.isSpace c). Qed.

Lemma trimStart_split (s : string) :
  exists a, s = a +++ Str.trimStart s /\ blank a = true
            /\ Str.headIs Char.isSpace (Str.trimStart s) = false.
Proof.
  induction s as [|c s (a & E & Ba & Hh)].
  - now exists EmptyString.
  - simpl. destruct (Char.isSpace c) eqn:Ec.
    + exists (String c a). simpl. rewrite <- E, blank_cons, Ec, Ba. auto.
    + exists EmptyString. simpl. auto.
Qed.

Lemma trimEnd_split (s : string) :
  exists b, s = Str.trimEnd s +++ b /\ blank b = true
            /\ lastIs Char.isSpace (Str.trimEnd s) = false.
Proof.
  induction s as [|c s (b & E & Bb & Hl)].
  - now exists EmptyString.
  - simpl. destruct (Char.isSpace c && Str.isEmpty (Str.trimEnd s)) eqn:Ec.
    + apply andb_prop in Ec. destruct Ec as [Ec Er].
      exists (String c s). simpl. split; [reflexivity|].
      split; [|reflexivity].
      rewrite blank_cons, Ec, E.
      destruct (Str.trimEnd s); [exact Bb | discriminate Er].
    + exists b. simpl. rewrite <- E. split; [reflexivity|].
      split; [exact Bb|].
      destruct (Str.trimEnd s) as [|d r]; [|exact Hl].
      simpl in Ec. rewrite andb_true_r in Ec. exact Ec.
Qed.

Lemma headIs_trimEnd_le (s : string) :
  Str.headIs Char.isSpace s = false ->
  Str.headIs Char.isSpace (Str.trimEnd s) = false.
Proof.
  destruct s as [|c s]; simpl; [reflexivity|]. intros E. rewrite E.
  simpl. exact E.
Qed.

(** [trim] does what its name says. *)
Lemma trim_trimmedOf (s : string) : trimmedOf s (Str.trim s).
Proof.
  unfold Str.trim.
  destruct (trimStart_split s) as (a & Ea & Ba & Hh).
  destruct (trimEnd_split (Str.trimStart s)) as (b & Eb & Bb & Hl).
  exists a, b. split; [now rewrite <- Eb|].
  split; [exact Ba|]. split; [exact Bb|].
  split; [now apply headIs_trimEnd_le | exact Hl].
Qed.

Lemma trimStart_blank (a : string) :
  blank a = true -> forall s, Str.trimStart (a +++ s) = Str.trimStart s.
Proof.
  induction a as [|c a IH]; intros B s; [reflexivity|].
  rewrite blank_cons in B. apply andb_prop in B. destruct B as [Ec B].
  simpl. rewrite Ec. now apply IH.
Qed.

Lemma trimEnd_blank (b : string) : blank b = true -> Str.trimEnd b = EmptyString.
Proof.
  induction b as [|c b IH]; intros B; [reflexivity|].
  rewrite blank_cons in B. apply andb_prop in B. destruct B as [Ec B].
  simpl. now rewrite (IH B), Ec.
Qed.

Lemma trimEnd_app_blank (t b : string) :
  blank b = true -> Str.trimEnd (t +++ b) = Str.trimEnd t.
Proof.
  intros B. induction t as [|c t IH]; simpl.
  - now apply trimEnd_blank.
  - now rewrite IH.
Qed.

Lemma trimEnd_fixed (t : string) :
  lastIs Char.isSpace t = false -> t <> EmptyString -> Str.trimEnd t = t.
Proof.
  induction t as [|c t IH]; intros Hl Hne; [congruence|].
  destruct t as [|d t].
  - simpl in *. now rewrite Hl.
  - change (lastIs Char.isSpace (String c (String d t)))
      with (lastIs Char.isSpace (String d t)) in Hl.
    change (Str.trimEnd (String c (String d t)))
      with (let r := Str.trimEnd (String d t) in
            if Char.isSpace c && Str.isEmpty r then EmptyString
            else String c r).
    rewrite IH by (exact Hl || discriminate). cbv zeta. simpl.
    now rewrite andb_false_r.
Qed.

Lemma trimmedOf_self (s : string) :
  Str.headIs Char.isSpace s = false -> lastIs Char.isSpace s = false ->
  trimmedOf s s.
Proof.
  intros H1 H2. exists EmptyString, EmptyString.
  simpl. now rewrite append_empty_r.
Qed.

(** And nothing else is the trimmed text. *)
Lemma trimmedOf_trim (s t : string) : trimmedOf s t -> Str.trim s = t.
Proof.
  intros (a & b & -> & Ba & Bb & Hh & Hl). unfold Str.trim.
  rewrite (trimStart_blank a Ba).
  destruct t as [|c t].
  - simpl. destruct (trimStart_split b) as (a' & E & Ba' & _).
    assert (B : blank (Str.trimStart b) = true).
    { rewrite E, blank_app in Bb. now apply andb_prop in Bb. }
    now apply trimEnd_blank.
  - simpl in Hh. simpl Str.trimStart. rewrite Hh.
    change (String c (t +++ b)) with (String c t +++ b).
    rewrite (trimEnd_app_blank _ _ Bb).
    apply trimEnd_fixed; [exact Hl | discriminate].
Qed.

End StringFacts.

(** ** [splitCSVLine] *)

Section SplitLine.

(** What has been pushed so far is never touched again. *)
Lemma splitCSVLine_loop_out (line : string) :
  forall out cur inQ,
    splitCSVLine_loop line out cur inQ
    = out ++ splitCSVLine_loop line [] cur inQ.
Proof.
  induction line as [|ch rest IH]; intros out cur inQ; simpl.
  - reflexivity.
  - destruct (Ascii.eqb ch Char.DQUOTE); [apply IH|].
    destruct (Ascii.eqb ch Char.COMMA && negb inQ).
    + rewrite IH, (IH [cur]). now rewrite app_assoc.
    + apply IH.
Qed.

Lemma splitCSVLine_loop_quoteless (line : string) :
  forall out cur inQ,
    Forall (fun f => Str.countQuotes f = 0) out ->
    Str.countQuotes cur = 0 ->
    Forall (fun f => Str.countQuotes f = 0)
           (splitCSVLine_loop line out cur inQ).
Proof.
  induction line as [|ch rest IH]; intros out cur inQ Hout Hcur; simpl.
  - apply Forall_app. split; [assumption | now constructor].
  - destruct (Ascii.eqb ch Char.DQUOTE) eqn:Hq; [now apply IH|].
    destruct (Ascii.eqb ch Char.COMMA && negb inQ).
    + apply IH; [|reflexivity].
      apply Forall_app. split; [assumption | now constructor].
    + apply IH; [assumption|].
      unfold Str.countQuotes in *. rewrite count_snoc, Hcur.
      rewrite Ascii.eqb_sym, Hq. reflexivity.
Qed.

Lemma splitCSVLine_quoteless (line : string) :
  Forall (fun f => Str.countQuotes f = 0) (splitCSVLine line).
Proof.
  unfold splitCSVLine. rewrite map_id.
  now apply splitCSVLine_loop_quoteless.
Qed.

Lemma splitCSVLine_nonempty (line : string) : splitCSVLine line <> [].
Proof.
  unfold splitCSVLine. rewrite map_id, splitCSVLine_loop_out. simpl.
  generalize EmptyString, false.
  induction line as [|ch rest IH]; intros cur inQ; simpl; [discriminate|].
  destruct (Ascii.eqb ch Char.DQUOTE); [apply IH|].
  destruct (Ascii.eqb ch Char.COMMA && negb inQ); [|apply IH].
  rewrite splitCSVLine_loop_out. discriminate.
Qed.

Lemma splitCommas_nonempty (line : string) : splitCommas line <> [].
Proof.
  destruct line as [|c l]; simpl; [discriminate|].
  destruct (Ascii.eqb c Char.COMMA); [discriminate|].
  destruct (splitCommas l); discriminate.
Qed.

(** Without quotes the splitter cuts at every comma. *)
Lemma splitCSVLine_loop_commas (line : string) :
  forall cur,
    Str.countQuotes line = 0 ->
    splitCSVLine_loop line [] cur false
    = match splitCommas line with
      | f :: fs => (cur +++ f) :: fs
      | [] => [cur]
      end.
Proof.
  induction line as [|ch rest IH]; intros cur Hq; simpl.
  - now rewrite append_empty_r.
  - unfold Str.countQuotes in Hq. simpl in Hq.
    rewrite Ascii.eqb_sym.
    destruct (Ascii.eqb Char.DQUOTE ch) eqn:Hch; [discriminate Hq|].
    simpl in Hq.
    destruct (Ascii.eqb ch Char.COMMA); simpl.
    + rewrite splitCSVLine_loop_out, IH by exact Hq.
      rewrite append_empty_r.
      destruct (splitCommas rest) eqn:E; [|reflexivity].
      now apply splitCommas_nonempty in E.
    + rewrite IH by exact Hq.
      destruct (splitCommas rest); simpl; [reflexivity|].
      now rewrite snoc_append.
Qed.

Lemma splitCSVLine_commas (line : string) :
  Str.countQuotes line = 0 -> splitCSVLine line = splitCommas line.
Proof.
  intros Hq. unfold splitCSVLine.
  rewrite map_id, splitCSVLine_loop_commas by exact Hq.
  destruct (splitCommas line) eqn:E; [|reflexivity].
  now apply splitCommas_nonempty in E.
Qed.

End SplitLine.

(** ** Plain objects *)

Section ObjFacts.
Context {V : Type}.
Implicit Types (o : Obj.obj V) (k : string) (v : V).

Lemma hasOwn_In k o : Obj.hasOwn k o = true <-> In k (Obj.keys o).
Proof.
  unfold Obj.hasOwn. induction o as [|[k' v'] o IH]; simpl.
  - split; [discriminate | tauto].
  - destruct (String.eqb_spec k k') as [->|Hne].
    + split; auto.
    + rewrite IH. split; [auto | intros [E|H]; congruence].
Qed.

Lemma lookup_None k o : Obj.lookup k o = None <-> ~ In k (Obj.keys o).
Proof.
  rewrite <- hasOwn_In. unfold Obj.hasOwn.
  destruct (Obj.lookup k o); split; congruence.
Qed.

Lemma lookup_In k o v : Obj.lookup k o = Some v -> In (k, v) o.
Proof.
  induction o as [|[k' v'] o IH]; simpl; [discriminate|].
  destruct (String.eqb_spec k k') as [->|Hne].
  - intros [= ->]. now left.
  - intros H. right. now apply IH.
Qed.

Lemma keys_update k v o : Obj.keys (Obj.update k v o) = Obj.keys o.
Proof.
  induction o as [|[k' v'] o IH]; simpl; [reflexivity|].
  destruct (String.eqb k k'); simpl; [reflexivity | now rewrite IH].
Qed.

Lemma lookup_update_same k v o :
  Obj.hasOwn k o = true -> Obj.lookup k (Obj.update k v o) = Some v.
Proof.
  unfold Obj.hasOwn. induction o as [|[k' v'] o IH]; simpl; [discriminate|].
  destruct (String.eqb k k') eqn:E; simpl; rewrite E; auto.
Qed.

Lemma lookup_update_other k k' v o :
  k' <> k -> Obj.lookup k' (Obj.update k v o) = Obj.lookup k' o.
Proof.
  intros Hne. induction o as [|[k0 v0] o IH]; simpl; [reflexivity|].
  destruct (String.eqb_spec k k0) as [->|Hk]; simpl.
  - destruct (String.eqb_spec k' k0); [congruence | reflexivity].
  - now rewrite IH.
Qed.

Lemma In_update k v o (e : string * V) :
  In e (Obj.update k v o) -> e = (k, v) \/ In e o.
Proof.
  induction o as [|[k' v'] o IH]; simpl; [tauto|].
  destruct (String.eqb_spec k k') as [->|Hk]; simpl; intuition.
Qed.

Lemma insertIndex_split n k v o :
  exists o1 o2, o = o1 ++ o2 /\ Obj.insertIndex n k v o = o1 ++ (k, v) :: o2.
Proof.
  induction o as [|[k' v'] o (o1 & o2 & E1 & E2)]; simpl.
  - now exists [], [].
  - destruct (Obj.arrayIndex k') as [n'|].
    + destruct (n' <? n)%N.
      * exists ((k', v') :: o1), o2. simpl. now rewrite <- E1, E2.
      * now exists [], ((k', v') :: o).
    + now exists [], ((k', v') :: o).
Qed.

Lemma lookup_app k o1 o2 :
  Obj.lookup k (o1 ++ o2)
  = match Obj.lookup k o1 with Some v => Some v | None => Obj.lookup k o2 end.
Proof.
  induction o1 as [|[k' v'] o1 IH]; simpl; [reflexivity|].
  now destruct (String.eqb k k').
Qed.

(** A newly created property sits somewhere among the old ones. *)
Lemma set_new_split k v o :
  Obj.hasOwn k o = false -> k <> "__proto__" ->
  exists o1 o2, o = o1 ++ o2 /\ Obj.set k v o = o1 ++ (k, v) :: o2.
Proof.
  intros H Hk. unfold Obj.set. rewrite H.
  rewrite (proj2 (String.eqb_neq _ _) Hk).
  destruct (Obj.arrayIndex k) as [n|].
  - apply insertIndex_split.
  - exists o, []. now rewrite app_nil_r.
Qed.

(** The setter of the prototype swallows an assignment to [__proto__]. *)
Lemma set_proto v o :
  Obj.hasOwn "__proto__" o = false -> Obj.set "__proto__" v o = o.
Proof. intros H. unfold Obj.set. now rewrite H. Qed.

(** An assignment adds its key, unless the key is [__proto__]. *)
Lemma keys_set k v o k' :
  In k' (Obj.keys (Obj.set k v o))
  <-> (k' = k /\ k <> "__proto__") \/ In k' (Obj.keys o).
Proof.
  destruct (Obj.hasOwn k o) eqn:H.
  - unfold Obj.set. rewrite H, keys_update.
    apply hasOwn_In in H. split; [auto | intros [[-> _]|]; auto].
  - destruct (String.eqb_spec k "__proto__") as [->|Hk].
    + rewrite (set_proto _ _ H). split; [auto | intros [[_ []]|]; auto].
    + destruct (set_new_split k v o H Hk) as (o1 & o2 & -> & ->).
      unfold Obj.keys. rewrite !map_app. simpl. rewrite !in_app_iff. simpl.
      intuition.
Qed.

Lemma lookup_set_same k v o :
  k <> "__proto__" -> Obj.lookup k (Obj.set k v o) = Some v.
Proof.
  intros Hk. destruct (Obj.hasOwn k o) eqn:H.
  - unfold Obj.set. rewrite H. now apply lookup_update_same.
  - destruct (set_new_split k v o H Hk) as (o1 & o2 & -> & ->).
    unfold Obj.hasOwn in H. rewrite lookup_app in *.
    destruct (Obj.lookup k o1); [discriminate|].
    simpl. now rewrite String.eqb_refl.
Qed.

Lemma lookup_set_other k k' v o :
  k' <> k -> Obj.lookup k' (Obj.set k v o) = Obj.lookup k' o.
Proof.
  intros Hne. destruct (Obj.hasOwn k o) eqn:H.
  - unfold Obj.set. rewrite H. now apply lookup_update_other.
  - destruct (String.eqb_spec k "__proto__") as [->|Hk].
    + now rewrite (set_proto _ _ H).
    + destruct (set_new_split k v o H Hk) as (o1 & o2 & -> & ->).
      rewrite !lookup_app. simpl.
      destruct (String.eqb_spec k' k); [congruence | reflexivity].
Qed.

Lemma In_set k v o (e : string * V) :
  In e (Obj.set k v o) -> e = (k, v) \/ In e o.
Proof.
  destruct (Obj.hasOwn k o) eqn:H.
  - unfold Obj.set. rewrite H. apply In_update.
  - destruct (String.eqb_spec k "__proto__") as [->|Hk].
    + rewrite (set_proto _ _ H). auto.
    + destruct (set_new_split k v o H Hk) as (o1 & o2 & -> & ->).
      rewrite !in_app_iff. simpl. intuition.
Qed.

End ObjFacts.

(** ** Rows *)

Section RowFacts.

Lemma mkRow_keys_fold (hs cols : list string) (js : list nat) :
  forall (o : Row) k,
    In k (Obj.keys (fold_left (assignCell hs cols) js o))
    <-> In k (Obj.keys o)
        \/ exists j, In j js /\ k = Str.trim (nth j hs EmptyString)
                     /\ k <> "__proto__".
Proof.
  induction js as [|j js IH]; intros o k; simpl.
  - split; [auto | intros [H|(j & [] & _)]; exact H].
  - rewrite IH. unfold assignCell. rewrite keys_set.
    split.
    + intros [[[-> Hk]|H]|(j' & Hj & E)]; eauto 8.
    + intros [H|(j' & [<-|Hj] & E & Hk)]; [auto | subst k; auto | eauto 8].
Qed.

(** The keys of a row are the trimmed header names, but for [__proto__]. *)
Lemma mkRow_keys (hs cols : list string) (k : string) :
  In k (Obj.keys (mkRow hs cols))
  <-> In k (List.map Str.trim hs) /\ k <> "__proto__".
Proof.
  unfold mkRow. rewrite mkRow_keys_fold. simpl. rewrite in_map_iff.
  split.
  - intros [[]|(j & Hj & -> & Hk)]. apply in_seq in Hj.
    split; [|exact Hk].
    exists (nth j hs EmptyString). split; [reflexivity|].
    apply nth_In. lia.
  - intros [(h & <- & Hh) Hk]. right.
    destruct (In_nth _ _ EmptyString Hh) as (j & Hj & <-).
    exists j. split; [apply in_seq; lia | auto].
Qed.

Lemma mkRow_cells_fold (P : string -> Prop) (hs cols : list string)
    (js : list nat) :
  P EmptyString ->
  Forall (fun c => P (Str.trim c)) cols ->
  forall o : Row,
    Forall (fun kv => P (snd kv)) o ->
    Forall (fun kv => P (snd kv)) (fold_left (assignCell hs cols) js o).
Proof.
  intros P0 Hcols. induction js as [|j js IH]; intros o Ho; simpl.
  - exact Ho.
  - apply IH. apply Forall_forall. intros e He.
    apply In_set in He. destruct He as [->|He].
    + simpl. destruct (nth_error cols j) as [c|] eqn:E; [|exact P0].
      apply nth_error_In in E.
      now apply (proj1 (Forall_forall _ _) Hcols).
    + now apply (proj1 (Forall_forall _ _) Ho).
Qed.

(** Every cell is a trimmed column, or empty. *)
Lemma mkRow_cells (P : string -> Prop) (hs cols : list string) :
  P EmptyString ->
  Forall (fun c => P (Str.trim c)) cols ->
  Forall (fun kv => P (snd kv)) (mkRow hs cols).
Proof. intros. apply mkRow_cells_fold; auto. Qed.

Lemma mkRow_fromEntries_fold (suf_h : list string) :
  forall pre_h pre_c suf_c (o : Row),
    List.length pre_h = List.length pre_c ->
    List.length suf_h = List.length suf_c ->
    fold_left (assignCell (pre_h ++ suf_h) (pre_c ++ suf_c))
              (seq (List.length pre_h) (List.length suf_h)) o
    = fold_left Obj.assign
                (combine (List.map Str.trim suf_h) (List.map Str.trim suf_c))
                o.
Proof.
  induction suf_h as [|h suf_h IH]; intros pre_h pre_c suf_c o Hpre Hsuf.
  - reflexivity.
  - destruct suf_c as [|c suf_c]; [discriminate|].
    simpl in Hsuf. injection Hsuf as Hsuf. simpl.
    replace (assignCell (pre_h ++ h :: suf_h) (pre_c ++ c :: suf_c) o
                        (List.length pre_h))
      with (Obj.set (Str.trim h) (Str.trim c) o).
    + specialize (IH (pre_h ++ [h]) (pre_c ++ [c]) suf_c
                     (Obj.set (Str.trim h) (Str.trim c) o)).
      rewrite <- !app_assoc in IH. simpl in IH.
      rewrite !length_app in IH. simpl in IH.
      rewrite Nat.add_1_r in IH. apply IH; lia.
    + unfold assignCell.
      rewrite app_nth2, Nat.sub_diag by lia. simpl.
      rewrite Hpre at 1.
      now rewrite nth_error_app2, Nat.sub_diag by lia.
Qed.

(** With as many columns as headers, the row is the object of the
    entries (trimmed header, trimmed column). *)
Lemma mkRow_fromEntries (hs cols : list string) :
  List.length cols = List.length hs ->
  mkRow hs cols
  = Obj.fromEntries (combine (List.map Str.trim hs) (List.map Str.trim cols)).
Proof.
  intros H. unfold mkRow, Obj.fromEntries.
  now apply (mkRow_fromEntries_fold hs [] [] cols []).
Qed.

End RowFacts.

(** ** The record loop of [parseCSV] *)

Section ParseLoop.
Variable hs : list string.

(** Rows already pushed are never touched again. *)
Lemma parseCSV_loop_out (ls : list string) :
  forall buf out,
    parseCSV_loop hs ls buf out = out ++ parseCSV_loop hs ls buf [].
Proof.
  induction ls as [|l ls IH]; intros buf out; simpl.
  - now rewrite app_nil_r.
  - destruct (Nat.odd (Str.countQuotes (buf +++ l))); [apply IH|].
    destruct (List.length (splitCSVLine (buf +++ l)) =? List.length hs).
    + rewrite (IH _ (out ++ _)), (IH _ [_]). now rewrite app_assoc.
    + apply IH.
Qed.

(** Every row comes from a record with exactly as many fields as there
    are headers. *)
Lemma parseCSV_loop_rows (ls : list string) :
  forall buf,
    Forall (fun row => exists r, wellFormed hs r = true /\ row = rowOfRecord hs r)
           (parseCSV_loop hs ls buf []).
Proof.
  induction ls as [|l ls IH]; intros buf; simpl.
  - constructor.
  - destruct (Nat.odd (Str.countQuotes (buf +++ l))); [apply IH|].
    destruct (List.length (splitCSVLine (buf +++ l)) =? List.length hs) eqn:E.
    + rewrite parseCSV_loop_out. apply Forall_app. split; [|apply IH].
      constructor; [|constructor]. now exists (buf +++ l).
    + apply IH.
Qed.

(** The text of a record is its lines, joined by line feeds. *)
Lemma logical_record_join buf ls r :
  logical_record buf ls r -> r = buf +++ joinLF ls.
Proof.
  induction 1 as [buf l He | buf l ls r Ho Hr IH]; [reflexivity|].
  rewrite IH. inversion Hr; subst; simpl;
    now rewrite snoc_append, append_assoc.
Qed.

Lemma logical_record_even buf ls r :
  logical_record buf ls r -> Nat.even (Str.countQuotes r) = true.
Proof. induction 1; assumption. Qed.

(** The loop reads a record to its end, pushes its row when it is well
    formed, and starts afresh. *)
Lemma parseCSV_loop_record buf rec r :
  logical_record buf rec r ->
  forall post out,
    parseCSV_loop hs (rec ++ post) buf out
    = parseCSV_loop hs post EmptyString
        (if wellFormed hs r then out ++ [rowOfRecord hs r] else out).
Proof.
  induction 1 as [buf l He | buf l ls r Ho Hr IH]; intros post out; simpl.
  - unfold Nat.odd. rewrite He. reflexivity.
  - rewrite Ho. apply IH.
Qed.

Lemma rowsOf_record rec r post :
  logical_record EmptyString rec r ->
  rowsOf hs (rec ++ post)
  = (if wellFormed hs r then [rowOfRecord hs r] else []) ++ rowsOf hs post.
Proof.
  intros H. unfold rowsOf.
  rewrite (parseCSV_loop_record _ _ _ H), parseCSV_loop_out.
  now destruct (wellFormed hs r).
Qed.

(** Complete records contribute independently of what follows. *)
Lemma rowsOf_records ls rs :
  records ls rs ->
  forall post,
    rowsOf hs (ls ++ post)
    = List.map (rowOfRecord hs) (filter (wellFormed hs) rs) ++ rowsOf hs post.
Proof.
  induction 1 as [|rec r rest rs Hr Hrs IH]; intros post; [reflexivity|].
  rewrite <- app_assoc, (rowsOf_record _ _ _ Hr), IH. simpl.
  now destruct (wellFormed hs r).
Qed.

Lemma rowsOf_records_app ls rs post :
  records ls rs -> rowsOf hs (ls ++ post) = rowsOf hs ls ++ rowsOf hs post.
Proof.
  intros H. rewrite (rowsOf_records _ _ H).
  pose proof (rowsOf_records _ _ H []) as E.
  rewrite app_nil_r in E. rewrite E.
  unfold rowsOf at 3. simpl. now rewrite app_nil_r.
Qed.

(** A quoteless line is a record of its own. *)
Lemma records_quoteless (ls : list string) :
  Forall (fun l => Str.countQuotes l = 0) ls -> records ls ls.
Proof.
  induction 1 as [|l ls Hl _ IH]; [constructor|].
  apply (recs_cons [l] l ls ls); [|exact IH].
  apply (lr_last EmptyString l). simpl. now rewrite Hl.
Qed.

End ParseLoop.

Lemma parseCSV_rowsOf (text h : string) (body : list string) :
  Str.splitLines text = h :: body ->
  parseCSV text = rowsOf (splitCSVLine h) body.
Proof. intros E. unfold parseCSV. now rewrite E. Qed.

Lemma splitLines_nonempty (text : string) : Str.splitLines text <> [].
Proof.
  destruct text as [|c s]; simpl; [discriminate|].
  destruct (Ascii.eqb c Char.LF); [discriminate|].
  destruct s as [|c' s'].
  - discriminate.
  - destruct (Ascii.eqb c Char.CR && Ascii.eqb c' Char.LF); [discriminate|].
    destruct (Str.splitLines (String c' s')); discriminate.
Qed.

(** ** Objects built from entries *)

Section FromEntries.
Context {V : Type}.
Implicit Types (o : Obj.obj V) (es : list (string * V)).

Lemma In_assign_all es :
  forall o e, In e (fold_left Obj.assign es o) -> In e es \/ In e o.
Proof.
  induction es as [|[k v] es IH]; intros o e H; simpl in *; [auto|].
  apply IH in H. destruct H as [H|H]; [auto|].
  apply In_set in H. simpl in H. intuition.
Qed.

Lemma lookup_assign_later k es :
  Forall (fun e => fst e <> k) es ->
  forall o, Obj.lookup k (fold_left Obj.assign es o) = Obj.lookup k o.
Proof.
  induction 1 as [|[k' v'] es Hk _ IH]; intros o; simpl; [reflexivity|].
  rewrite IH. unfold Obj.assign. simpl in *.
  apply lookup_set_other. congruence.
Qed.

(** The last entry for a key decides its value. *)
Lemma lookup_fromEntries_last es1 k v es2 :
  k <> "__proto__" ->
  Forall (fun e => fst e <> k) es2 ->
  Obj.lookup k (Obj.fromEntries (es1 ++ (k, v) :: es2)) = Some v.
Proof.
  intros Hk H. unfold Obj.fromEntries.
  rewrite fold_left_app. simpl.
  change (Obj.lookup k (fold_left Obj.assign es2
            (Obj.set k v (fold_left Obj.assign es1 []))) = Some v).
  rewrite (lookup_assign_later _ _ H). now apply lookup_set_same.
Qed.

Lemma In_fromEntries es e : In e (Obj.fromEntries es) -> In e es.
Proof.
  intros H. apply In_assign_all in H. destruct H as [H|[]]. exact H.
Qed.

End FromEntries.

(** ** [parseCSV]: the claims *)

Lemma nth_map_trim (j : nat) (xs : list string) :
  nth j (List.map Str.trim xs) EmptyString = Str.trim (nth j xs EmptyString).
Proof. exact (map_nth Str.trim xs EmptyString j). Qed.

(** The last, empty, piece of a text that ends in a line break is a record
    like any other: one empty field. *)
Lemma rowsOf_final (hs : list string) :
  rowsOf hs [EmptyString]
  = if List.length hs =? 1 then [mkRow hs [EmptyString]] else [].
Proof.
  unfold rowsOf. simpl. rewrite Nat.eqb_sym.
  now destruct (List.length hs =? 1).
Qed.

(** C1, as amended.  A text whose header line has [N] comma-separated
    columns and whose body lines each have exactly [N] comma-separated
    fields, without quote characters, parses to one row per body line, in
    source order.  A line break after the last body line adds nothing when
    [N] is at least two; when [N] is one, the empty piece after it is one
    more body line, and yields one more row.  The cells of a row are the
    pairs (trimmed header name, trimmed field text) of its line: every cell
    is such a pair, and every column whose name is not repeated further on
    and is not [__proto__] has its cell. *)
Theorem parseCSV_well_formed (text h : string) (body : list string)
    (final : bool) (N : nat) :
  Str.splitLines text = pieces h body final ->
  Str.countQuotes h = 0 ->
  List.length (splitCommas h) = N ->
  Forall (fun l => Str.countQuotes l = 0 /\ List.length (splitCommas l) = N)
         body ->
  parseCSV text
  = List.map (rowOfLine h) body
    ++ (if final && (N =? 1) then [rowOfLine h EmptyString] else [])
  /\ (forall l k v,
        List.length (splitCommas l) = N ->
        In (k, v) (rowOfLine h l) ->
        exists j, j < N
                  /\ trimmedOf (nth j (splitCommas h) EmptyString) k
                  /\ trimmedOf (nth j (splitCommas l) EmptyString) v)
  /\ (forall l j k,
        List.length (splitCommas l) = N ->
        j < N ->
        trimmedOf (nth j (splitCommas h) EmptyString) k ->
        k <> "__proto__" ->
        (forall j', j < j' < N ->
                    ~ trimmedOf (nth j' (splitCommas h) EmptyString) k) ->
        exists v,
          Obj.lookup k (rowOfLine h l) = Some v
          /\ trimmedOf (nth j (splitCommas l) EmptyString) v).
Proof.
  intros Hlines Hh HN Hbody.
  assert (Hq : Forall (fun l => Str.countQuotes l = 0) body)
    by (eapply Forall_impl; [|exact Hbody]; now intros l [H _]).
  split; [|split].
  - unfold pieces in Hlines.
    rewrite (parseCSV_rowsOf _ _ _ Hlines), (splitCSVLine_commas _ Hh).
    rewrite (rowsOf_records (splitCommas h) _ _ (records_quoteless _ Hq)).
    f_equal.
    + clear Hq Hlines.
      induction Hbody as [|l ls [Hl Hn] _ IH]; [reflexivity|].
      simpl. unfold wellFormed at 1.
      rewrite (splitCSVLine_commas _ Hl), Hn, HN, Nat.eqb_refl. simpl.
      rewrite IH. f_equal. unfold rowOfRecord, rowOfLine, rowOfFields.
      rewrite (splitCSVLine_commas _ Hl). apply mkRow_fromEntries. congruence.
    + destruct final; simpl.
      * rewrite rowsOf_final, HN.
        destruct (N =? 1) eqn:E1; [|reflexivity].
        apply Nat.eqb_eq in E1. f_equal. unfold rowOfLine, rowOfFields.
        apply mkRow_fromEntries. simpl. lia.
      * reflexivity.
  - intros l k v Hn Hin. unfold rowOfLine, rowOfFields in Hin.
    apply In_fromEntries in Hin.
    destruct (In_nth _ _ (EmptyString, EmptyString) Hin) as (j & Hj & E).
    rewrite length_combine, !length_map in Hj.
    rewrite combine_nth in E by (rewrite !length_map; lia).
    injection E as <- <-. exists j. split; [lia|].
    rewrite !nth_map_trim. split; apply trim_trimmedOf.
  - intros l j k Hn Hj Hk Hproto Hlast.
    apply trimmedOf_trim in Hk.
    set (names := List.map Str.trim (splitCommas h)).
    set (vals := List.map Str.trim (splitCommas l)).
    assert (Ln : List.length names = N) by (unfold names; now rewrite length_map).
    assert (Lv : List.length vals = N) by (unfold vals; now rewrite length_map).
    assert (Lc : List.length (combine names vals) = N)
      by (rewrite length_combine; lia).
    destruct (@nth_split _ j (combine names vals) (EmptyString, EmptyString))
      as (es1 & es2 & E & L1); [lia|].
    rewrite combine_nth in E by lia.
    exists (Str.trim (nth j (splitCommas l) EmptyString)).
    split; [|apply trim_trimmedOf].
    unfold rowOfLine, rowOfFields. fold names vals. rewrite E.
    rewrite <- nth_map_trim in Hk. rewrite <- nth_map_trim.
    fold names in Hk. fold vals. rewrite Hk.
    apply lookup_fromEntries_last; [exact Hproto|].
    apply Forall_forall. intros e He Hke.
    destruct (In_nth _ _ (EmptyString, EmptyString) He) as (i & Hi & Ei).
    assert (Ej : nth (j + S i) (combine names vals) (EmptyString, EmptyString) = e).
    { rewrite E, app_nth2 by lia.
      replace (j + S i - List.length es1) with (S i) by lia. exact Ei. }
    assert (j + S i < N).
    { rewrite <- Lc, E, length_app. simpl. lia. }
    rewrite combine_nth in Ej by lia. rewrite <- Ej in Hke. simpl in Hke.
    apply (Hlast (j + S i)); [lia|].
    rewrite <- Hke. unfold names.
    rewrite nth_map_trim. apply trim_trimmedOf.
Qed.

(** The two-row example of the specification; and the same table written
    with spaces and tabs around names and fields, line breaks of both
    kinds, and a final line break. *)
Lemma parseCSV_well_formed_witness :
  parseCSV exampleCSV
  = [[("Institute", "A"); ("Program", "X")];
     [("Institute", "B"); ("Program", "Y")]]
  /\ parseCSV spacedCSV
     = [[("Institute", "A"); ("Program", "X")];
        [("Institute", "B"); ("Program", "Y")]].
Proof.
  split.
  - rewrite (proj1 (parseCSV_well_formed exampleCSV "Institute,Program"
                      ["A,X"; "B,Y"] false 2 eq_refl eq_refl eq_refl
                      ltac:(repeat constructor))).
    reflexivity.
  - rewrite (proj1 (parseCSV_well_formed spacedCSV " Institute , Program "
                      ["A ," +++ String (ascii_of_nat 9) "X"; "  B,Y  "]
                      true 2 eq_refl eq_refl eq_refl
                      ltac:(repeat constructor))).
    reflexivity.
Defined.

(** C1 as stated fails: under a one-column header, a text with one body
    line and a line break after it yields two rows, the second one for the
    empty piece that follows the line break. *)
Lemma parseCSV_final_break_counterexample :
  oneColumnCSV = "a" +++ String Char.LF ("1" +++ String Char.LF EmptyString)
  /\ List.length (splitCommas "a") = 1
  /\ Str.countQuotes "1" = 0
  /\ List.length (splitCommas "1") = 1
  /\ parseCSV oneColumnCSV = [[("a", "1")]; [("a", EmptyString)]]
  /\ List.length (parseCSV oneColumnCSV) <> List.length ["1"].
Proof. repeat split; discriminate. Qed.

(** C2, as amended.  A record with a quoted field that runs over a line
    break, so that a quote is open at the end of each of its physical lines
    but the last, is read as one record: its lines are joined, the line
    breaks kept as line feeds, and it yields a single row, between the rows
    of what precedes and of what follows, when it has the header's number
    of fields, and no row otherwise. *)
Theorem parseCSV_multiline_record (text h : string) (pre rs : list string)
    (l1 l2 : string) (ls post : list string) (r : string) :
  Str.splitLines text = h :: pre ++ (l1 :: l2 :: ls) ++ post ->
  records pre rs ->
  logical_record EmptyString (l1 :: l2 :: ls) r ->
  r = joinLF (l1 :: l2 :: ls)
  /\ parseCSV text
     = rowsOf (splitCSVLine h) pre
       ++ (if wellFormed (splitCSVLine h) r
           then [rowOfRecord (splitCSVLine h) r]
           else [])
       ++ rowsOf (splitCSVLine h) post.
Proof.
  intros Hlines Hpre Hrec. split.
  - now apply logical_record_join in Hrec.
  - rewrite (parseCSV_rowsOf _ _ _ Hlines).
    now rewrite (rowsOf_records_app _ _ _ _ Hpre), (rowsOf_record _ _ _ _ Hrec).
Qed.

(** A quoted field over two lines: one row, the line feed kept. *)
Lemma parseCSV_multiline_record_witness :
  parseCSV multilineCSV
  = [[("a", "1"); ("b", "x" +++ String Char.LF "y")];
     [("a", "2"); ("b", "z")]].
Proof.
  rewrite (proj2 (parseCSV_multiline_record multilineCSV "a,b" [] []
                    ("1," +++ String Char.DQUOTE "x")
                    ("y" +++ String Char.DQUOTE EmptyString) [] ["2,z"]
                    _ eq_refl recs_nil
                    (lr_more EmptyString ("1," +++ String Char.DQUOTE "x") _ _
                       eq_refl
                       (lr_last
                          (Str.snoc ("1," +++ String Char.DQUOTE "x") Char.LF)
                          ("y" +++ String Char.DQUOTE EmptyString) eq_refl)))).
  reflexivity.
Defined.

(** C2 as stated fails: a record with a quoted field over two lines is
    joined, but with one field under a two-column header it yields no row
    at all. *)
Lemma parseCSV_multiline_counterexample :
  logical_record EmptyString
    [String Char.DQUOTE "x"; "y" +++ String Char.DQUOTE EmptyString]
    (String Char.DQUOTE ("x" +++ String Char.LF
       ("y" +++ String Char.DQUOTE EmptyString)))
  /\ List.length (splitCSVLine "a,b") = 2
  /\ parseCSV shortMultilineCSV = [].
Proof.
  split; [|split; reflexivity].
  exact (lr_more EmptyString (String Char.DQUOTE "x") _ _ eq_refl
           (lr_last (Str.snoc (String Char.DQUOTE "x") Char.LF)
                    ("y" +++ String Char.DQUOTE EmptyString) eq_refl)).
Qed.

(** C3.  A complete record whose quote-aware field count differs from the
    header's adds no row: the table is the rows of the well-formed records
    before it followed by the rows of the lines after it, which is what the
    parser returns when the record is not there; and every row of a table
    holds the fields of a record with exactly the header's number of
    fields, one cell per field. *)
Theorem parseCSV_drops_malformed (text h : string) (pre rs rec : list string)
    (r : string) (post : list string) :
  Str.splitLines text = h :: pre ++ rec ++ post ->
  records pre rs ->
  logical_record EmptyString rec r ->
  List.length (splitCSVLine r) <> List.length (splitCSVLine h) ->
  parseCSV text
  = List.map (rowOfRecord (splitCSVLine h))
             (filter (wellFormed (splitCSVLine h)) rs)
    ++ rowsOf (splitCSVLine h) post
  /\ parseCSV text = rowsOf (splitCSVLine h) (pre ++ post)
  /\ Forall (fun row => exists r',
                 List.length (splitCSVLine r') = List.length (splitCSVLine h)
                 /\ row = rowOfFields (splitCSVLine h) (splitCSVLine r'))
            (parseCSV text).
Proof.
  intros Hlines Hpre Hrec Hwf.
  assert (E : parseCSV text
              = List.map (rowOfRecord (splitCSVLine h))
                         (filter (wellFormed (splitCSVLine h)) rs)
                ++ rowsOf (splitCSVLine h) post).
  { rewrite (parseCSV_rowsOf _ _ _ Hlines).
    rewrite (rowsOf_records _ _ _ Hpre), (rowsOf_record _ _ _ _ Hrec).
    unfold wellFormed at 2.
    now rewrite (proj2 (Nat.eqb_neq _ _) Hwf). }
  split; [exact E | split].
  - rewrite E. now rewrite (rowsOf_records _ _ _ Hpre).
  - rewrite (parseCSV_rowsOf _ _ _ Hlines).
    eapply Forall_impl; [|apply parseCSV_loop_rows].
    intros row (r' & Hr' & ->). apply Nat.eqb_eq in Hr'.
    exists r'. split; [exact Hr'|].
    now apply mkRow_fromEntries.
Qed.

(** A one-field line under a two-column header leaves no trace. *)
Lemma parseCSV_drops_malformed_witness :
  parseCSV raggedCSV = [[("a", "1"); ("b", "2")]; [("a", "4"); ("b", "5")]].
Proof.
  rewrite (proj1 (parseCSV_drops_malformed raggedCSV "a,b" ["1,2"] ["1,2"]
                    ["3"] "3" ["4,5"] eq_refl
                    (recs_cons ["1,2"] "1,2" [] []
                       (lr_last EmptyString "1,2" eq_refl) recs_nil)
                    (lr_last EmptyString "3" eq_refl)
                    ltac:(vm_compute; lia))).
  reflexivity.
Defined.

(** C4, which the code breaks.  The keys of every row of every parsed
    table are the whitespace-trimmed header names, except that no row has
    the key [__proto__]: under that header name the assignment goes to the
    setter every object inherits, and the column is lost. *)
Theorem parseCSV_row_keys (text : string) :
  Forall (fun row : Row =>
            forall k,
              In k (Obj.keys row)
              <-> (exists name,
                     In name (splitCSVLine (hd EmptyString (Str.splitLines text)))
                     /\ trimmedOf name k)
                  /\ k <> "__proto__")
         (parseCSV text)
  /\ List.map Str.trim (splitCSVLine (hd EmptyString (Str.splitLines protoCSV)))
     = ["__proto__"; "b"]
  /\ parseCSV protoCSV = [[("b", "2")]]
  /\ List.map Obj.keys (parseCSV spacedCSV)
     = [["Institute"; "Program"]; ["Institute"; "Program"]].
Proof.
  split; [|repeat split].
  unfold parseCSV.
  eapply Forall_impl; [|apply parseCSV_loop_rows].
  intros row (r & _ & ->) k. unfold rowOfRecord. rewrite mkRow_keys.
  rewrite in_map_iff. split.
  - intros [(name & <- & Hin) Hk]. split; [|exact Hk].
    exists name. split; [exact Hin | apply trim_trimmedOf].
  - intros [(name & Hin & Ht) Hk]. split; [|exact Hk].
    exists name. split; [now apply trimmedOf_trim | exact Hin].
Qed.

(** C8.  No field returned by [splitCSVLine], and so no cell of a parsed
    table, contains a double quote; a doubled quote inside a quoted field
    is not turned into a literal quote but disappears. *)
Theorem splitCSVLine_no_quote (line text : string) :
  Forall (fun f => Str.countQuotes f = 0) (splitCSVLine line)
  /\ Forall (fun row : Row =>
               Forall (fun cell => Str.countQuotes (snd cell) = 0) row)
            (parseCSV text)
  /\ splitCSVLine
       (String Char.DQUOTE
          ("a" +++ String Char.DQUOTE (String Char.DQUOTE
             ("b" +++ String Char.DQUOTE EmptyString))))
     = ["ab"].
Proof.
  split; [apply splitCSVLine_quoteless | split; [|reflexivity]].
  unfold parseCSV.
  eapply Forall_impl; [|apply parseCSV_loop_rows].
  intros row (r & _ & ->).
  apply (mkRow_cells (fun v => Str.countQuotes v = 0)); [reflexivity|].
  eapply Forall_impl; [|apply splitCSVLine_quoteless].
  intros f Hf. simpl in Hf.
  pose proof (count_trim (Ascii.eqb Char.DQUOTE) f) as H.
  unfold Str.countQuotes in *. lia.
Qed.

(** ** [getVal] *)

Section GetVal.
Variable row : Row.

(** A key of the row holds a string. *)
Lemma cell_own (k : string) :
  In k (Obj.keys row) ->
  exists v, Obj.lookup k row = Some v /\ cell row k = VStr v.
Proof.
  intros H. apply hasOwn_In in H. unfold Obj.hasOwn, cell in *.
  destruct (Obj.lookup k row) as [v|]; [now exists v | discriminate].
Qed.

Lemma scanKeys_found (lower : string) (ks : list string) (x : value) :
  scanKeys row lower ks = Some x ->
  exists kpre k kpost,
    ks = kpre ++ k :: kpost
    /\ Str.toLowerCase k = lower
    /\ Forall (fun k' => Str.toLowerCase k' <> lower) kpre
    /\ x = cell row k.
Proof.
  induction ks as [|k ks IH]; simpl; [discriminate|].
  destruct (String.eqb_spec (Str.toLowerCase k) lower) as [E|E]; intros H.
  - injection H as <-. now exists [], k, ks.
  - destruct (IH H) as (kpre & k' & kpost & -> & ? & ? & ?).
    exists (k :: kpre), k', kpost. repeat split; auto.
Qed.



(** The operator [in] sees the own keys and the names of the prototype. *)
Lemma has_spec (n : string) :
  Obj.has n row
  = match Obj.lookup n row with Some _ => true | None => Obj.inherited n end.
Proof. unfold Obj.has, Obj.hasOwn. now destruct (Obj.lookup n row). Qed.

End GetVal.






(** ** [normalizeName] *)

Section Words.















End Words.

Section NormalizeName.
Context {E : Engine}.




End NormalizeName.



(** ** [safeUrl] *)

Section SafeUrl.
Import Recommend.

Lemma isEmpty_false_trim (s : string) :
  Str.trim s <> EmptyString -> Str.isEmpty s = false.
Proof. destruct s; [intros H; now elim H | reflexivity]. Qed.

(** Without a dot there is no domain name. *)
Lemma hostTail_dot (w : string) :
  hostTail w = true -> Str.count (Ascii.eqb "."%char) w <> 0.
Proof.
  induction w as [|c w IH]; simpl; [discriminate|].
  rewrite Ascii.eqb_sym.
  destruct (Ascii.eqb "."%char c); simpl; [discriminate|].
  intros H. apply andb_prop in H. now apply IH.
Qed.

Lemma domainLike_dot (w : string) :
  dotless w = true -> domainLike w = false.
Proof.
  unfold dotless. intros H. apply Nat.eqb_eq in H.
  destruct w as [|c w]; [reflexivity|]. simpl in *.
  destruct (hostTail w) eqn:T; [|apply andb_false_r].
  apply hostTail_dot in T.
  destruct (Ascii.eqb "."%char c); simpl in H; lia.
Qed.

(** The pattern reads units of the host class only, and the colon is none:
    whether a text with a colon matches is decided before the colon. *)
Lemma twoLetters_colon (w rest : string) :
  twoLetters (w +++ String ":"%char rest) = twoLetters w.
Proof.
  destruct w as [|c1 [|c2 w]]; simpl.
  - now destruct rest.
  - apply andb_false_r.
  - reflexivity.
Qed.

Lemma hostTail_colon (w rest : string) :
  hostTail (w +++ String ":"%char rest) = hostTail w.
Proof.
  induction w as [|c w IH]; [reflexivity|].
  simpl. now rewrite twoLetters_colon, IH.
Qed.

Lemma domainLike_colon (w rest : string) :
  domainLike (w +++ String ":"%char rest) = domainLike w.
Proof.
  destruct w as [|c w]; [reflexivity|].
  simpl. now rewrite hostTail_colon.
Qed.

Lemma letter_facts (c : ascii) :
  Char.isAsciiLetter c = true ->
  isSchemeChar c = true /\ c <> "/"%char /\ c <> "."%char.
Proof.
  destruct c as [[] [] [] [] [] [] [] []]; vm_compute;
    intros H; try discriminate H; repeat split; discriminate.
Qed.

Lemma prefix_scheme (q x name rest : string) :
  Str.count (Ascii.eqb ":"%char) q = 0 ->
  Str.count (fun d => negb (isSchemeChar d)) name = 0 ->
  Str.startsWith (q +++ String ":"%char x) (name +++ String ":"%char rest)
  = true ->
  q = name.
Proof.
  revert name. induction q as [|a q IH]; intros [|c name] Hq Hn H;
    simpl in *.
  - reflexivity.
  - apply andb_prop in H. destruct H as [H _].
    apply Ascii.eqb_eq in H. subst c. discriminate Hn.
  - apply andb_prop in H. destruct H as [H _].
    apply Ascii.eqb_eq in H. subst a. discriminate Hq.
  - apply andb_prop in H. destruct H as [Hac H].
    apply Ascii.eqb_eq in Hac. subst a.
    revert Hq Hn.
    destruct (Ascii.eqb ":"%char c); [discriminate|].
    destruct (isSchemeChar c); [|discriminate].
    simpl. intros Hq Hn. f_equal. now apply IH.
Qed.

(** Under a scheme outside the list, the domain pattern alone decides, and
    it looks at the scheme name only. *)
Lemma safeUrl_other_scheme (s name rest : string) :
  Str.trim s = name +++ String ":"%char rest ->
  validScheme name = true ->
  existsb (String.eqb name) allowedSchemes = false ->
  safeUrl (VStr s)
  = if domainLike name then "https://" +++ Str.trim s else EmptyString.
Proof.
  intros Ht Hv Hn. unfold safeUrl.
  rewrite isEmpty_false_trim
    by (rewrite Ht; destruct name; discriminate).
  cbv zeta. rewrite Ht.
  destruct name as [|c name]; [discriminate Hv|].
  simpl in Hv. apply andb_prop in Hv. destruct Hv as [Hc Hr].
  apply Nat.eqb_eq in Hr.
  destruct (letter_facts c Hc) as (Hsc & Hslash & Hdot).
  assert (Hall : Str.count (fun d => negb (isSchemeChar d)) (String c name) = 0)
    by (simpl; now rewrite Hsc).
  assert (Hp : forall q x,
             Str.count (Ascii.eqb ":"%char) q = 0 ->
             existsb (String.eqb (String c name)) [q] = false ->
             Str.startsWith (q +++ String ":"%char x)
               (String c name +++ String ":"%char rest) = false).
  { intros q x Hq Hne.
    destruct (Str.startsWith _ _) eqn:P; [|reflexivity].
    apply prefix_scheme in P; [|assumption..].
    simpl in Hne. rewrite P, String.eqb_refl in Hne. discriminate Hne. }
  simpl in Hn.
  destruct (String.eqb (String c name) "data") eqn:N1; [discriminate Hn|].
  destruct (String.eqb (String c name) "http") eqn:N2; [discriminate Hn|].
  destruct (String.eqb (String c name) "https") eqn:N3; [discriminate Hn|].
  destruct (String.eqb (String c name) "blob") eqn:N4; [discriminate Hn|].
  pose proof (Hp "data" EmptyString eq_refl) as P1.
  pose proof (Hp "http" "//" eq_refl) as P2.
  pose proof (Hp "https" "//" eq_refl) as P3.
  pose proof (Hp "blob" EmptyString eq_refl) as P4.
  cbn [existsb orb] in P1, P2, P3, P4.
  rewrite N1 in P1. rewrite N2 in P2. rewrite N3 in P3. rewrite N4 in P4.
  change ("data" +++ String ":"%char EmptyString) with "data:" in P1.
  change ("http" +++ String ":"%char "//") with "http://" in P2.
  change ("https" +++ String ":"%char "//") with "https://" in P3.
  change ("blob" +++ String ":"%char EmptyString) with "blob:" in P4.
  rewrite (P1 eq_refl), (P2 eq_refl), (P3 eq_refl), (P4 eq_refl).
  assert (S1 : Str.startsWith "/" (String c name +++ String ":"%char rest) = false).
  { simpl. destruct (Ascii.eqb_spec "/"%char c); [congruence | reflexivity]. }
  assert (S2 : Str.startsWith "./" (String c name +++ String ":"%char rest) = false).
  { simpl. destruct (Ascii.eqb_spec "."%char c); [congruence | reflexivity]. }
  assert (S3 : Str.startsWith "../" (String c name +++ String ":"%char rest) = false).
  { simpl. destruct (Ascii.eqb_spec "."%char c); [congruence | reflexivity]. }
  rewrite S1, S2, S3. cbn [orb].
  now rewrite domainLike_colon.
Qed.

Lemma safeUrl_cases (s : string) :
  safeUrl (VStr s) = EmptyString
  \/ (safeUrl (VStr s) = Str.trim s
      /\ existsb (fun p => Str.startsWith p (Str.trim s)) allowedPrefixes
         = true)
  \/ (domainLike (Str.trim s) = true
      /\ safeUrl (VStr s) = "https://" +++ Str.trim s).
Proof.
  unfold safeUrl, allowedPrefixes.
  destruct (Str.isEmpty s); [now left|]. cbv zeta.
  generalize (Str.trim s). intros t. cbn [existsb].
  destruct (Str.startsWith "data:" t); [now right; left|].
  destruct (Str.startsWith "http://" t); [now right; left|].
  destruct (Str.startsWith "https://" t); [now right; left|].
  destruct (Str.startsWith "blob:" t); [now right; left|].
  destruct (Str.startsWith "/" t); [now right; left|].
  destruct (Str.startsWith "./" t); [now right; left|].
  destruct (Str.startsWith "../" t); [now right; left|].
  cbn [orb].
  destruct (domainLike t); [now right; right | now left].
Qed.

End SafeUrl.

(** C10, as amended.  [safeUrl] returns the empty string, or its trimmed
    argument when that begins with one of [data:], [http://], [https://],
    [blob:], [/], [./], [../], or [https://] followed by its trimmed argument
    when that begins like a domain name.  A value that is not a string
    yields the empty string.  So does a string under any other scheme,
    such as [javascript:], unless the scheme name itself begins like a
    domain name, in which case [https://] is prepended; a scheme name
    without a dot never does. *)
Theorem safeUrl_spec (url : value) :
  (Recommend.safeUrl url = EmptyString
   \/ (exists s t,
         url = VStr s /\ trimmedOf s t /\ Recommend.safeUrl url = t
         /\ existsb (fun p => Str.startsWith p t) allowedPrefixes = true)
   \/ (exists s t,
         url = VStr s /\ trimmedOf s t /\ Recommend.domainLike t = true
         /\ Recommend.safeUrl url = "https://" +++ t))
  /\ ((forall s, url <> VStr s) -> Recommend.safeUrl url = EmptyString)
  /\ (forall s name rest,
        url = VStr s ->
        trimmedOf s (name +++ String ":"%char rest) ->
        validScheme name = true ->
        existsb (String.eqb name) allowedSchemes = false ->
        Recommend.safeUrl url
        = (if Recommend.domainLike name
           then "https://" +++ name +++ String ":"%char rest
           else EmptyString)
        /\ (dotless name = true -> Recommend.domainLike name = false)).
Proof.
  split; [|split].
  - destruct url as [| | | |s| | |]; try (now left).
    destruct (safeUrl_cases s) as [H|[[H1 H2]|[H1 H2]]].
    + now left.
    + right. left. exists s, (Str.trim s).
      split; [reflexivity | split; [apply trim_trimmedOf | now split]].
    + right. right. exists s, (Str.trim s).
      split; [reflexivity | split; [apply trim_trimmedOf | now split]].
  - intros H. destruct url; try reflexivity. now elim (H s).
  - intros s name rest -> Ht Hv Hn. apply trimmedOf_trim in Ht.
    split; [|apply domainLike_dot].
    rewrite (safeUrl_other_scheme s name rest Ht Hv Hn). now rewrite Ht.
Qed.

(** A script, a registered scheme with a dot in its name that is no
    domain name, a number, and an address between spaces. *)
Lemma safeUrl_spec_witness :
  Recommend.safeUrl (VStr "javascript:alert(1)") = EmptyString
  /\ Recommend.safeUrl (VStr "z39.50r://host") = EmptyString
  /\ Recommend.safeUrl (VNum (Fin 7)) = EmptyString
  /\ Recommend.safeUrl (VStr "  http://x.org ") = "http://x.org"
  /\ Recommend.safeUrl (VStr " x.org/a ") = "https://x.org/a".
Proof.
  split; [|split; [|split; [|split]]].
  - apply (proj1 (proj2 (proj2 (safeUrl_spec (VStr "javascript:alert(1)")))
                    "javascript:alert(1)" "javascript" "alert(1)"
                    eq_refl (trimmedOf_self "javascript:alert(1)" eq_refl eq_refl)
                    eq_refl eq_refl)).
  - apply (proj1 (proj2 (proj2 (safeUrl_spec (VStr "z39.50r://host")))
                    "z39.50r://host" "z39.50r" "//host"
                    eq_refl (trimmedOf_self "z39.50r://host" eq_refl eq_refl)
                    eq_refl eq_refl)).
  - apply (proj1 (proj2 (safeUrl_spec (VNum (Fin 7))))).
    intros s. discriminate.
  - reflexivity.
  - reflexivity.
Defined.

(** C10 as stated fails: [soap.beep] is a registered scheme outside the
    list, and a string under it is taken for a domain name. *)
Lemma safeUrl_dotted_scheme_counterexample :
  validScheme "soap.beep" = true
  /\ existsb (String.eqb "soap.beep") allowedSchemes = false
  /\ Recommend.safeUrl (VStr "soap.beep://host") = "https://soap.beep://host"
  /\ Recommend.safeUrl (VStr "soap.beep://host") <> EmptyString.
Proof. repeat split; discriminate. Qed.

(** ** The heap *)

Section Heap.
Import Recommend.


Lemma read_app_new (a : list value) (h : heap) :
  read (List.length h) (h ++ [a]) = a.
Proof. unfold read. now rewrite app_nth2, Nat.sub_diag by lia. Qed.

Lemma read_write_same (r : ref) (a : list value) (h : heap) :
  r < List.length h -> read r (write r a h) = a.
Proof.
  unfold read. revert r.
  induction h as [|x h IH]; intros [|r] H; simpl in *;
    try lia; [reflexivity | apply IH; lia].
Qed.


End Heap.

(** ** Consistent comparators *)

Section Consistency.
Variable f : value -> value -> sgn.
Variable l : list value.
Hypothesis Hc : Sort.consistent f l.

Lemma consistent_flip (a b : value) :
  In a l -> In b l -> f a b = Pos -> f b a = Neg.
Proof.
  destruct Hc as (N & R & S & T). intros Ha Hb H.
  destruct (f b a) eqn:E; [reflexivity | | |].
  - apply (S b a Hb Ha) in E. congruence.
  - pose proof (T Pos a b a Ha Hb Ha H E) as X.
    rewrite (R a Ha) in X. discriminate X.
  - now elim (N b a Hb Ha).
Qed.

Lemma consistent_flop (a b : value) :
  In a l -> In b l -> f a b = Neg -> f b a = Pos.
Proof.
  destruct Hc as (N & R & S & T). intros Ha Hb H.
  destruct (f b a) eqn:E; [| |reflexivity|].
  - pose proof (T Neg a b a Ha Hb Ha H E) as X.
    rewrite (R a Ha) in X. discriminate X.
  - apply (S b a Hb Ha) in E. congruence.
  - now elim (N b a Hb Ha).
Qed.

(** A tie on the left passes the verdict on. *)
Lemma consistent_tie_l (a b c : value) (s : sgn) :
  In a l -> In b l -> In c l -> f a b = Zero -> f b c = s -> f a c = s.
Proof.
  pose proof consistent_flip as F1. pose proof consistent_flop as F2.
  destruct Hc as (N & R & S & T). intros Ha Hb Hc' H1 H2.
  pose proof (S a b Ha Hb H1) as H1'.
  destruct s.
  - destruct (f a c) eqn:E; [reflexivity | | |].
    + pose proof (T Zero b a c Hb Ha Hc' H1' E). congruence.
    + pose proof (F1 a c Ha Hc' E) as E'.
      pose proof (T Neg b c a Hb Hc' Ha H2 E'). congruence.
    + now elim (N a c Ha Hc').
  - now apply (T Zero a b c).
  - destruct (f a c) eqn:E; [| |reflexivity|].
    + pose proof (F2 a c Ha Hc' E) as E'.
      pose proof (T Pos b c a Hb Hc' Ha H2 E'). congruence.
    + pose proof (T Zero b a c Hb Ha Hc' H1' E). congruence.
    + now elim (N a c Ha Hc').
  - now elim (N b c Hb Hc').
Qed.

(** And so does a tie on the right. *)
Lemma consistent_tie_r (a b c : value) (s : sgn) :
  In a l -> In b l -> In c l -> f a b = s -> f b c = Zero -> f a c = s.
Proof.
  pose proof consistent_flip as F1. pose proof consistent_flop as F2.
  destruct Hc as (N & R & S & T). intros Ha Hb Hc' H1 H2.
  pose proof (S b c Hb Hc' H2) as H2'.
  destruct s.
  - destruct (f a c) eqn:E; [reflexivity | | |].
    + pose proof (T Zero a c b Ha Hc' Hb E H2'). congruence.
    + pose proof (F1 a c Ha Hc' E) as E'.
      pose proof (T Neg c a b Hc' Ha Hb E' H1). congruence.
    + now elim (N a c Ha Hc').
  - now apply (T Zero a b c).
  - destruct (f a c) eqn:E; [| |reflexivity|].
    + pose proof (F2 a c Ha Hc' E) as E'.
      pose proof (T Pos c a b Hc' Ha Hb E' H1). congruence.
    + pose proof (T Zero a c b Ha Hc' Hb E H2'). congruence.
    + now elim (N a c Ha Hc').
  - now elim (N a b Ha Hb).
Qed.

(** Not being before is transitive. *)
Lemma consistent_notBefore (x y z : value) :
  In x l -> In y l -> In z l ->
  f y x <> Neg -> f z y <> Neg -> f z x <> Neg.
Proof.
  pose proof consistent_tie_l as TL. pose proof consistent_tie_r as TR.
  destruct Hc as (N & R & S & T). intros Hx Hy Hz H1 H2 H3.
  destruct (f z y) eqn:E2; [congruence | | |].
  - pose proof (TL z y x (f y x) Hz Hy Hx E2 eq_refl). congruence.
  - destruct (f y x) eqn:E1; [congruence | | |].
    + pose proof (TR z y x Pos Hz Hy Hx E2 E1). congruence.
    + pose proof (T Pos z y x Hz Hy Hx E2 E1). congruence.
    + now elim (N y x Hy Hx).
  - now elim (N z y Hz Hy).
Qed.

End Consistency.

(** [SortCompare] as a case distinction on [undefined]. *)
Lemma sortCompare_eq (cmp : value -> value -> sgn) (x y : value) :
  Sort.sortCompare cmp x y
  = if isUndefined x then (if isUndefined y then Zero else Pos)
    else if isUndefined y then Neg
         else match cmp x y with SNaN => Zero | s => s end.
Proof. destruct x, y; reflexivity. Qed.

(** Under a consistent comparator [SortCompare] is consistent too. *)
Lemma consistent_sortCompare (cmp : value -> value -> sgn) (l : list value) :
  Sort.consistent cmp l -> Sort.consistent (Sort.sortCompare cmp) l.
Proof.
  intros (N & R & S & T). repeat split.
  - intros a b Ha Hb. rewrite sortCompare_eq.
    destruct (isUndefined a), (isUndefined b); try discriminate.
    now destruct (cmp a b).
  - intros a Ha. rewrite sortCompare_eq.
    destruct (isUndefined a); [reflexivity|]. now rewrite (R a Ha).
  - intros a b Ha Hb. rewrite !sortCompare_eq.
    destruct (isUndefined a), (isUndefined b); try discriminate;
      [reflexivity|].
    pose proof (N a b Ha Hb). pose proof (S a b Ha Hb).
    destruct (cmp a b); try discriminate; try congruence.
    intros _. now rewrite H0.
  - intros s a b c Ha Hb Hc'. rewrite !sortCompare_eq.
    pose proof (N a b Ha Hb). pose proof (N b c Hb Hc').
    pose proof (N a c Ha Hc'). pose proof (T s a b c Ha Hb Hc') as X.
    destruct (isUndefined a), (isUndefined b), (isUndefined c);
      try congruence;
      destruct (cmp a b); try congruence;
      destruct (cmp b c); try congruence;
      intros <-; try discriminate; intros _;
      now rewrite X.
Qed.

(** ** The sort of the reference engine *)

Section InsertionSort.
Import IntEngine.
Variable cmp : value -> value -> sgn.

Lemma insert_perm (x : value) (l : list value) :
  Permutation (insert cmp x l) (x :: l).
Proof.
  induction l as [|y l IH]; simpl; [reflexivity|].
  destruct (sortAfter cmp x y); [|reflexivity].
  rewrite IH. apply perm_swap.
Qed.

Lemma sort_perm (l : list value) : Permutation (sort cmp l) l.
Proof.
  induction l as [|x l IH]; simpl; [reflexivity|].
  rewrite insert_perm. now constructor.
Qed.

Variable all : list value.
Hypothesis Hc : Sort.consistent cmp all.

Lemma insert_sorted (x : value) (l : list value) :
  In x all -> incl l all ->
  Sort.sortedBy cmp l -> Sort.sortedBy cmp (insert cmp x l).
Proof.
  pose proof (consistent_sortCompare _ _ Hc) as Hs.
  unfold Sort.sortedBy. intros Hx Hl Hsorted.
  induction Hsorted as [|y l Hl' IH Hy]; simpl.
  - repeat constructor.
  - assert (Iy : In y all) by (apply Hl; now left).
    assert (Il : incl l all) by (intros z Hz; apply Hl; now right).
    unfold sortAfter. destruct (Sort.sortCompare cmp x y) eqn:E.
    + constructor; [now constructor|].
      constructor; [|].
      * intros H. pose proof (consistent_flop _ _ Hs y x Iy Hx H). congruence.
      * apply Forall_forall. intros z Hz.
        apply (consistent_notBefore _ _ Hs x y z Hx Iy (Il z Hz)).
        -- intros H. pose proof (consistent_flop _ _ Hs y x Iy Hx H).
           congruence.
        -- now apply (proj1 (Forall_forall _ _) Hy).
    + constructor; [now constructor|].
      constructor; [|].
      * intros H. pose proof (consistent_flop _ _ Hs y x Iy Hx H). congruence.
      * apply Forall_forall. intros z Hz.
        apply (consistent_notBefore _ _ Hs x y z Hx Iy (Il z Hz)).
        -- intros H. pose proof (consistent_flop _ _ Hs y x Iy Hx H).
           congruence.
        -- now apply (proj1 (Forall_forall _ _) Hy).
    + constructor; [now apply IH|].
      apply Forall_forall. intros z Hz.
      apply (Permutation_in _ (insert_perm x l)) in Hz.
      destruct Hz as [<-|Hz]; [congruence|].
      now apply (proj1 (Forall_forall _ _) Hy).
    + now elim (proj1 Hs x y Hx Iy).
Qed.

Lemma sort_sorted (l : list value) :
  incl l all -> Sort.sortedBy cmp (sort cmp l).
Proof.
  induction l as [|x l IH]; intros Hl; simpl; [constructor|].
  apply insert_sorted.
  - apply Hl. now left.
  - intros z Hz. apply (Permutation_in _ (sort_perm l)) in Hz.
    apply Hl. now right.
  - apply IH. intros z Hz. apply Hl. now right.
Qed.

(** An element passes only elements it does not tie with. *)
Lemma insert_ties (x0 x : value) (l : list value) :
  In x0 all -> In x all -> incl l all ->
  filter (Sort.ties cmp x0) (insert cmp x l)
  = filter (Sort.ties cmp x0) (x :: l).
Proof.
  pose proof (consistent_sortCompare _ _ Hc) as Hs.
  intros H0 Hx Hl. induction l as [|y l IH]; [reflexivity|].
  assert (Iy : In y all) by (apply Hl; now left).
  assert (Il : incl l all) by (intros z Hz; apply Hl; now right).
  simpl. unfold sortAfter.
  destruct (Sort.sortCompare cmp x y) eqn:E; try reflexivity.
  simpl. rewrite (IH Il). simpl. unfold Sort.ties.
  destruct (Sort.sortCompare cmp x0 x) eqn:Ex; try reflexivity.
  destruct (Sort.sortCompare cmp x0 y) eqn:Ey; try reflexivity.
  pose proof (proj1 (proj2 (proj2 Hs)) x0 x H0 Hx Ex) as Ex'.
  pose proof (proj2 (proj2 (proj2 Hs)) Zero x x0 y Hx H0 Iy Ex' Ey).
  congruence.
Qed.

Lemma sort_ties (l : list value) :
  incl l all ->
  forall x0, In x0 all ->
    filter (Sort.ties cmp x0) (sort cmp l) = filter (Sort.ties cmp x0) l.
Proof.
  intros Hl x0 H0. induction l as [|x l IH]; [reflexivity|].
  simpl sort. rewrite insert_ties.
  - simpl. rewrite IH; [reflexivity|]. intros z Hz. apply Hl. now right.
  - exact H0.
  - apply Hl. now left.
  - intros z Hz. apply (Permutation_in _ (sort_perm l)) in Hz.
    apply Hl. now right.
Qed.

End InsertionSort.

(** The reference engine sorts as the standard requires. *)
Lemma intEngine_conforming : Sort.conforming intEngine.
Proof.
  intros cmp l. split; [apply sort_perm|].
  intros Hc. split.
  - apply (sort_sorted cmp l Hc). apply incl_refl.
  - intros x Hx. apply (sort_ties cmp l Hc); [apply incl_refl | exact Hx].
Qed.

(** ** Sorted arrays *)


(** ** The comparator of [applyClientSort] *)

(** The sign of the difference of two finite numbers is a consistent
    verdict. *)
Lemma subSign_refl (p : Q) : Num.subSign (Fin p) (Fin p) = Zero.
Proof.
  simpl. now rewrite (proj1 (Qeq_alt p p) (Qeq_refl p)).
Qed.

Lemma subSign_sym (p q : Q) :
  Num.subSign (Fin p) (Fin q) = Zero -> Num.subSign (Fin q) (Fin p) = Zero.
Proof.
  simpl. destruct (Qcompare p q) eqn:E; try discriminate. intros _.
  apply Qeq_alt in E. now rewrite (proj1 (Qeq_alt q p) (Qeq_sym _ _ E)).
Qed.

Lemma subSign_trans (s : sgn) (p q r : Q) :
  Num.subSign (Fin p) (Fin q) = s -> Num.subSign (Fin q) (Fin r) = s ->
  Num.subSign (Fin p) (Fin r) = s.
Proof.
  simpl.
  destruct (Qcompare p q) eqn:E1; intros <-;
    destruct (Qcompare q r) eqn:E2; try discriminate; intros _.
  - apply Qeq_alt in E1, E2.
    now rewrite (proj1 (Qeq_alt p r) (Qeq_trans _ _ _ E1 E2)).
  - apply Qlt_alt in E1, E2.
    now rewrite (proj1 (Qlt_alt p r) (Qlt_trans _ _ _ E1 E2)).
  - apply Qgt_alt in E1, E2.
    now rewrite (proj1 (Qgt_alt p r) (Qlt_trans _ _ _ E2 E1)).
Qed.

Lemma subSign_finite (p q : Q) : Num.subSign (Fin p) (Fin q) <> SNaN.
Proof. simpl. now destruct (Qcompare p q). Qed.

Section Comparator.
Import Recommend.
Context {E : Engine}.
Variable metric : string.

(** The accessor answers [null] exactly for a missing value. *)
Lemma getVal_null (v : value) : isNull (getVal v metric) = missing metric v.
Proof.
  unfold getVal, missing.
  destruct (Val.falsy v); [reflexivity|].
  destruct (isRankKey metric); [reflexivity|]. simpl.
  destruct (isBlank (metricValue v metric)); [reflexivity|].
  now destruct (Num.isNaN _).
Qed.



(** What the accessor answers for an element without a value and for one
    whose value is a finite number. *)
Lemma getVal_missing (v : value) :
  missing metric v = true -> getVal v metric = VNull.
Proof.
  intros H. rewrite <- getVal_null in H.
  now destruct (getVal v metric).
Qed.

Lemma getVal_finite (v : value) :
  finiteValue metric v = true -> exists q, getVal v metric = VNum (Fin q).
Proof.
  unfold finiteValue, missing, getVal. intros H.
  apply andb_prop in H. destruct H as [Hm Hp].
  apply negb_true_iff in Hm. apply orb_false_iff in Hm.
  destruct Hm as [Hf Hb]. rewrite Hf.
  destruct (isRankKey metric); simpl in Hb.
  - unfold Val.parseFloat in *.
    destruct (parseFloatString _) as [| |q|]; try discriminate Hp.
    now exists q.
  - rewrite Hb. unfold Val.parseFloat in *.
    destruct (parseFloatString _) as [| |q|]; try discriminate Hp.
    now exists q.
Qed.

(** Where every element either has no value or has a finite number for
    one, the comparator is consistent. *)
Lemma compareFn_consistent (l : list value) :
  Forall (fun v => missing metric v || finiteValue metric v = true) l ->
  Sort.consistent (compareFn metric) l.
Proof.
  intros Hl.
  assert (K : forall a, In a l ->
                getVal a metric = VNull
                \/ exists q, getVal a metric = VNum (Fin q)).
  { intros a Ha. pose proof (proj1 (Forall_forall _ _) Hl a Ha) as H.
    apply orb_prop in H. destruct H as [H|H];
      [left; now apply getVal_missing | right; now apply getVal_finite]. }
  clear Hl. unfold compareFn. repeat split.
  - intros a b Ha Hb.
    destruct (K a Ha) as [->|[p ->]], (K b Hb) as [->|[q ->]]; simpl;
      try discriminate.
    destruct (orderDesc metric); apply subSign_finite.
  - intros a Ha. destruct (K a Ha) as [->|[p ->]]; simpl; [reflexivity|].
    destruct (orderDesc metric); apply subSign_refl.
  - intros a b Ha Hb.
    destruct (K a Ha) as [->|[p ->]], (K b Hb) as [->|[q ->]];
      cbn [isNull isNumber andb Val.toNumber]; try discriminate;
      [reflexivity|].
    destruct (orderDesc metric); apply subSign_sym.
  - intros s a b c Ha Hb Hc.
    destruct (K a Ha) as [->|[p ->]], (K b Hb) as [->|[q ->]],
             (K c Hc) as [->|[r ->]];
      cbn [isNull isNumber andb Val.toNumber];
      try (intros H1 H2; congruence).
    destruct (orderDesc metric); intros H1 H2.
    + exact (subSign_trans s r q p H2 H1).
    + exact (subSign_trans s p q r H1 H2).
Qed.

End Comparator.

(** ** [applyClientSort] *)

Section ApplyClientSort.
Import Recommend.
Context {E : Engine}.

Lemma applyClientSort_eq (sel : string) (results : option ref) (h : heap) :
  let h1 := match results with Some _ => h | None => h ++ [[]] end in
  applyClientSort sel results h
  = (List.length h1,
     write (List.length h1)
           (arraySort (compareFn (metricOf sel)) (inputOf results h))
           (h1 ++ [inputOf results h])).
Proof.
  unfold applyClientSort, slice, alloc, sortInPlace, inputOf, metricOf.
  destruct results as [r|]; simpl.
  - now rewrite read_app_new.
  - now rewrite !read_app_new.
Qed.

End ApplyClientSort.




(** * Further properties *)

(** ** The order [applyClientSort] gives *)

Section Ordered.
Import Recommend.
Context {E : Engine}.
Variable metric : string.




End Ordered.




(** Where all the elements tie, a stable sort changes nothing. *)
Lemma keepsTies_all (cmp : value -> value -> sgn) (l l' : list value) :
  Permutation l' l ->
  Sort.keepsTies cmp l l' ->
  (forall x y, In x l -> In y l -> Sort.ties cmp x y = true) ->
  l' = l.
Proof.
  intros Hp Hk Ht. destruct l as [|x l].
  - apply Permutation_sym in Hp. now apply Permutation_nil in Hp.
  - specialize (Hk x (or_introl eq_refl)).
    assert (F : forall m, incl m (x :: l) -> filter (Sort.ties cmp x) m = m).
    { induction m as [|y m IH]; intros Hm; [reflexivity|].
      simpl. rewrite (Ht x y); [|now left|apply Hm; now left].
      f_equal. apply IH. intros z Hz. apply Hm. now right. }
    rewrite (F (x :: l) (incl_refl _)) in Hk.
    rewrite F in Hk; [exact Hk|].
    intros z Hz. now apply (Permutation_in _ Hp).
Qed.

(** X2.  On an engine that sorts as the standard requires, sorting by a
    metric for which no element has a value leaves the elements in the
    order they had ([undefined] elements, which a parsed payload never
    holds, set aside). *)
Theorem applyClientSort_no_values {E : Engine} (sel : string)
    (results : option Recommend.ref) (h : Recommend.heap)
    (arr : Recommend.ref) (h' : Recommend.heap) :
  Sort.conforming E ->
  live results h ->
  Recommend.applyClientSort sel results h = (arr, h') ->
  Forall (fun v => missing (metricOf sel) v = true /\ v <> VUndefined)
         (inputOf results h) ->
  Recommend.read arr h' = inputOf results h.
Proof.
  intros Hconf Hlive Heq Hl. rewrite applyClientSort_eq in Heq.
  cbv zeta in Heq. injection Heq as <- <-.
  rewrite read_write_same by (rewrite length_app; simpl; lia).
  destruct (Hconf (Recommend.compareFn (metricOf sel)) (inputOf results h))
    as [Hp Hs].
  assert (Hc : Sort.consistent (Recommend.compareFn (metricOf sel))
                               (inputOf results h)).
  { apply compareFn_consistent. eapply Forall_impl; [|exact Hl].
    intros v [Hv _]. now rewrite Hv. }
  destruct (Hs Hc) as [_ Hk].
  apply (keepsTies_all _ _ _ Hp Hk).
  intros x y Hx Hy.
  destruct (proj1 (Forall_forall _ _) Hl x Hx) as [Mx Ux].
  destruct (proj1 (Forall_forall _ _) Hl y Hy) as [My Uy].
  unfold Sort.ties. rewrite sortCompare_eq.
  replace (isUndefined x) with false by (now destruct x).
  replace (isUndefined y) with false by (now destruct y).
  unfold Recommend.compareFn.
  now rewrite (getVal_missing _ _ Mx), (getVal_missing _ _ My).
Qed.

(** No element has a mess score: the order stays. *)
Lemma applyClientSort_no_values_witness :
  Recommend.read 1 (snd (@Recommend.applyClientSort intEngine "mess_score"
                           (Some 0) [[scoreFive; VNull; scoreSeven]]))
  = [scoreFive; VNull; scoreSeven].
Proof.
  apply (@applyClientSort_no_values intEngine "mess_score" (Some 0)
           [[scoreFive; VNull; scoreSeven]] 1
           (snd (@Recommend.applyClientSort intEngine "mess_score"
                   (Some 0) [[scoreFive; VNull; scoreSeven]]))
           intEngine_conforming (le_n 1) eq_refl).
  repeat constructor; discriminate.
Defined.

(** ** Quoted fields *)

Section Quoting.





End Quoting.



(** ** Reading a parsed table *)

(** X4.  What [parseCSV] stores, [getVal] finds: in every row of a parsed
    table, every header name, trimmed, is answered with the cell of that
    row under it (the name [__proto__] apart, which no row holds); and a
    name that no header equals, even up to letter case, and that names no
    member of the prototype, is answered with the empty string. *)
Theorem parseCSV_getVal (text : string) (row : Row) (name : string)
    (rest : list string) :
  In row (parseCSV text) ->
  (In name (headersOf text) -> Str.trim name <> "__proto__" ->
   exists v, In (Str.trim name, v) row
             /\ getVal row (Str.trim name :: rest) = VStr v)
  /\ (Obj.inherited name = false ->
      Forall (fun h => sameText (Str.trim h) name = false) (headersOf text) ->
      getVal row [name] = VStr EmptyString).
Proof.
  intros Hrow.
  assert (Hk : forall k, In k (Obj.keys row)
                         <-> In k (List.map Str.trim (headersOf text))
                             /\ k <> "__proto__").
  { unfold parseCSV in Hrow.
    pose proof (parseCSV_loop_rows (headersOf text)
                  (tl (Str.splitLines text)) EmptyString) as H.
    destruct (proj1 (Forall_forall _ _) H row Hrow) as (r & _ & ->).
    intros k. apply mkRow_keys. }
  split.
  - intros Hn Hp.
    assert (Ik : In (Str.trim name) (Obj.keys row))
      by (apply Hk; split; [now apply in_map | exact Hp]).
    destruct (cell_own row _ Ik) as (v & Hv & Hc).
    exists v. split; [now apply lookup_In|].
    simpl. rewrite has_spec, Hv. exact Hc.
  - intros Hi Hall. simpl. rewrite has_spec, Hi.
    assert (Hno : Forall (fun k => Str.toLowerCase k <> Str.toLowerCase name)
                         (Obj.keys row)).
    { apply Forall_forall. intros k Ik. apply Hk in Ik. destruct Ik as [Ik _].
      apply in_map_iff in Ik. destruct Ik as (h & <- & Ih).
      pose proof (proj1 (Forall_forall _ _) Hall h Ih) as Hf.
      intros Heq. apply sameText_toLowerCase in Heq. congruence. }
    destruct (Obj.lookup name row) as [v|] eqn:Hl.
    + exfalso.
      assert (Ik : In name (Obj.keys row))
        by (apply hasOwn_In; unfold Obj.hasOwn; now rewrite Hl).
      now apply (proj1 (Forall_forall _ _) Hno name Ik).
    + destruct (scanKeys row (Str.toLowerCase name) (Obj.keys row))
        as [x|] eqn:Hs; [|reflexivity].
      exfalso. destruct (scanKeys_found _ _ _ _ Hs)
        as (kpre & k & kpost & Ek & El & _).
      apply (proj1 (Forall_forall _ _) Hno k); [|exact El].
      rewrite Ek. apply in_or_app. right. now left.
Qed.

(** The first row of the spaced table, read under a header name and under
    a name that is no header. *)
Lemma parseCSV_getVal_witness :
  (exists v, In ("Institute", v) [("Institute", "A"); ("Program", "X")]
             /\ getVal [("Institute", "A"); ("Program", "X")]
                       ["Institute"; "college"] = VStr v)
  /\ getVal [("Institute", "A"); ("Program", "X")] ["Quota"] = VStr EmptyString.
Proof.
  destruct (parseCSV_getVal spacedCSV [("Institute", "A"); ("Program", "X")])
    with (name := " Institute ") (rest := ["college"]) as [H1 _];
    [now left|].
  destruct (parseCSV_getVal spacedCSV [("Institute", "A"); ("Program", "X")])
    with (name := "Quota") (rest := @nil string) as [_ H2];
    [now left|].
  split.
  - apply H1; [now left | discriminate].
  - apply H2; [reflexivity | repeat constructor].
Defined.

(** ** [safeUrl], applied twice *)

Section SafeUrlTwice.
Import Recommend.

Lemma trim_idem (s : string) : Str.trim (Str.trim s) = Str.trim s.
Proof.
  destruct (trim_trimmedOf s) as (a & b & _ & _ & _ & Hh & Hl).
  apply trimmedOf_trim. now apply trimmedOf_self.
Qed.

Lemma lastIs_app (p : ascii -> bool) (a t : string) :
  t <> EmptyString -> lastIs p (a +++ t) = lastIs p t.
Proof.
  intros Hne. induction a as [|c a IH]; [reflexivity|].
  simpl. rewrite IH.
  destruct (a +++ t) eqn:E; [|reflexivity].
  destruct a; [simpl in E; congruence | discriminate E].
Qed.

Lemma safeUrl_unfold (s : string) :
  Str.isEmpty (Str.trim s) = false ->
  safeUrl (VStr s) = safeUrl (VStr (Str.trim s)).
Proof.
  intros H. unfold safeUrl. rewrite trim_idem, H.
  destruct s; [discriminate H | reflexivity].
Qed.

End SafeUrlTwice.

(** X5.  [safeUrl] is idempotent: what it returns, it returns unchanged
    when applied to it again. *)
Theorem safeUrl_idempotent (url : value) :
  Recommend.safeUrl (VStr (Recommend.safeUrl url)) = Recommend.safeUrl url
  /\ Recommend.safeUrl (VStr (Recommend.safeUrl (VStr " x.org/a ")))
     = "https://x.org/a".
Proof.
  split; [|reflexivity].
  destruct url as [| | | |s| | |]; try reflexivity.
  destruct (safeUrl_cases s) as [H|[[H1 H2]|[H1 H2]]].
  - now rewrite H.
  - rewrite H1. rewrite <- safeUrl_unfold; [exact H1|].
    destruct (Str.trim s); [discriminate H2 | reflexivity].
  - rewrite H2.
    destruct (trim_trimmedOf s) as (a & b & _ & _ & _ & Hh & Hl).
    destruct (Str.trim s) as [|c t] eqn:Et; [discriminate H1|].
    assert (Htr : Str.trim ("https://" +++ String c t) = "https://" +++ String c t).
    { apply trimmedOf_trim. apply trimmedOf_self; [reflexivity|].
      rewrite lastIs_app by discriminate. exact Hl. }
    unfold Recommend.safeUrl at 1. cbv zeta. rewrite Htr. reflexivity.
Qed.

(** ** [esc] *)

Section Esc.
Import Recommend.

Lemma replaceAll_app (c : ascii) (r a b : string) :
  replaceAll c r (a +++ b) = replaceAll c r a +++ replaceAll c r b.
Proof.
  induction a as [|d a IH]; [reflexivity|]. simpl.
  destruct (Ascii.eqb d c); rewrite IH; [now rewrite append_assoc | reflexivity].
Qed.

(** The three replacements, one after the other, are one pass that writes
    each code unit as its entity. *)
Lemma esc_entities (t : string) :
  replaceAll ">"%char "&gt;"
    (replaceAll "<"%char "&lt;" (replaceAll "&"%char "&amp;" t))
  = entities t.
Proof.
  induction t as [|c t IH]; [reflexivity|].
  cbn [replaceAll entities]. unfold entity.
  destruct (Ascii.eqb_spec c "&"%char) as [->|Ha].
  - rewrite !replaceAll_app, IH. reflexivity.
  - cbn [replaceAll].
    destruct (Ascii.eqb_spec c "<"%char) as [->|Hl].
    + rewrite !replaceAll_app, IH. reflexivity.
    + cbn [replaceAll].
      destruct (Ascii.eqb_spec c ">"%char) as [->|Hg].
      * rewrite IH. reflexivity.
      * now rewrite IH.
Qed.

Lemma entities_brackets (t : string) :
  Str.count (Ascii.eqb "<"%char) (entities t) = 0
  /\ Str.count (Ascii.eqb ">"%char) (entities t) = 0.
Proof.
  induction t as [|c t [IH1 IH2]]; [split; reflexivity|].
  cbn [entities]. rewrite !count_append, IH1, IH2. unfold entity.
  destruct (Ascii.eqb_spec c "&"%char) as [->|Ha]; [split; reflexivity|].
  destruct (Ascii.eqb_spec c "<"%char) as [->|Hl]; [split; reflexivity|].
  destruct (Ascii.eqb_spec c ">"%char) as [->|Hg]; [split; reflexivity|].
  simpl.
  destruct (Ascii.eqb_spec "<"%char c); [congruence|].
  destruct (Ascii.eqb_spec ">"%char c); [congruence|].
  split; reflexivity.
Qed.

Lemma unescape_entities (t : string) : unescape (entities t) = t.
Proof.
  induction t as [|c t IH]; [reflexivity|].
  cbn [entities]. unfold entity.
  destruct (Ascii.eqb_spec c "&"%char) as [->|Ha].
  - change (unescape ("&amp;" +++ entities t))
      with (String "&"%char (unescape (entities t))).
    now rewrite IH.
  - destruct (Ascii.eqb_spec c "<"%char) as [->|Hl].
    + change (unescape ("&lt;" +++ entities t))
        with (String "<"%char (unescape (entities t))).
      now rewrite IH.
    + destruct (Ascii.eqb_spec c ">"%char) as [->|Hg].
      * change (unescape ("&gt;" +++ entities t))
          with (String ">"%char (unescape (entities t))).
        now rewrite IH.
      * cbn [String.append unescape].
        rewrite (proj2 (Ascii.eqb_neq _ _) Ha). now rewrite IH.
Qed.

End Esc.

(** X6.  [esc] takes every angle bracket out of a string, so what it
    returns opens no tag when written into a page, and loses nothing: read
    back the way a browser reads entities, its result is the string it was
    given.  [null] and [undefined] give the empty string, and a number or
    a boolean is returned untouched. *)
Theorem esc_spec (t : string) :
  (exists out,
     Recommend.esc (VStr t) = VStr out
     /\ Str.count (Ascii.eqb "<"%char) out = 0
     /\ Str.count (Ascii.eqb ">"%char) out = 0
     /\ unescape out = t)
  /\ Recommend.esc VNull = VStr EmptyString
  /\ Recommend.esc VUndefined = VStr EmptyString
  /\ (forall x, Recommend.esc (VNum x) = VNum x)
  /\ (forall b, Recommend.esc (VBool b) = VBool b)
  /\ Recommend.esc (VStr "<b>R&D</b>") = VStr "&lt;b&gt;R&amp;D&lt;/b&gt;".
Proof.
  split; [|repeat split].
  exists (entities t). unfold Recommend.esc. rewrite esc_entities.
  destruct (entities_brackets t) as [H1 H2].
  repeat split; [exact H1 | exact H2 | apply unescape_entities].
Qed.

(** ** The row [renderBasicInfo] shows *)

Section BasicInfo.
Context {E : Engine}.







End BasicInfo.



(** ** The classes of a compared pair *)

Section PairClasses.

Lemma numEq_sym (x y : num) : numEq x y = numEq y x.
Proof.
  destruct x as [| |p|], y as [| |q|]; try reflexivity. simpl.
  destruct (Qeq_bool p q) eqn:E1, (Qeq_bool q p) eqn:E2; try reflexivity.
  - apply Qeq_bool_iff in E1. apply Qeq_sym in E1.
    apply Qeq_bool_iff in E1. congruence.
  - apply Qeq_bool_iff in E2. apply Qeq_sym in E2.
    apply Qeq_bool_iff in E2. congruence.
Qed.

(** Of two numbers that are not equal, exactly one is the smaller. *)
Lemma ltb_total (x y : num) :
  Num.isNaN x = false -> Num.isNaN y = false -> numEq x y = false ->
  Num.ltb y x = negb (Num.ltb x y).
Proof.
  destruct x as [| |p|], y as [| |q|]; try discriminate; try reflexivity.
  unfold Num.ltb. simpl. intros _ _ Hne.
  rewrite <- (Qcompare_antisym p q).
  destruct (Qcompare p q) eqn:Ec; try reflexivity.
  apply Qeq_alt in Ec. apply Qeq_bool_iff in Ec. congruence.
Qed.

Lemma ltb_numbers (x y : num) :
  Num.ltb x y = true -> Num.isNaN x = false /\ Num.isNaN y = false.
Proof. destruct x, y; try discriminate; split; reflexivity. Qed.

End PairClasses.

(** X8.  [compareNumericPairs] treats the two sides alike: with the two
    numbers exchanged, the two cells exchange their classes.  It never marks
    both cells higher or both lower; it marks none when a number is missing
    or the two are equal; and of two different numbers it marks the larger
    one higher, except in the pair of institute ranks, where it marks the
    smaller one higher. *)
Theorem pairClasses_spec (k : string) (aVal bVal : num) :
  pairClasses k bVal aVal
  = (snd (pairClasses k aVal bVal), fst (pairClasses k aVal bVal))
  /\ (pairClasses k aVal bVal = ("num", "num")
      \/ pairClasses k aVal bVal = ("num higher", "num lower")
      \/ pairClasses k aVal bVal = ("num lower", "num higher"))
  /\ (Num.isNaN aVal || Num.isNaN bVal || numEq aVal bVal = true ->
      pairClasses k aVal bVal = ("num", "num"))
  /\ (Num.ltb bVal aVal = true ->
      pairClasses k aVal bVal
      = if String.eqb k "instRank" then ("num lower", "num higher")
        else ("num higher", "num lower")).
Proof.
  unfold pairClasses. cbv zeta.
  destruct (Num.isNaN aVal) eqn:Na, (Num.isNaN bVal) eqn:Nb; simpl.
  - repeat split; auto.
    intros H. apply ltb_numbers in H. destruct H; congruence.
  - repeat split; auto.
    intros H. apply ltb_numbers in H. destruct H; congruence.
  - repeat split; auto.
    intros H. apply ltb_numbers in H. destruct H; congruence.
  - rewrite (numEq_sym bVal aVal).
    destruct (numEq aVal bVal) eqn:Ne.
    + repeat split; auto.
      intros H. exfalso. revert Ne H.
      destruct aVal as [| |p|], bVal as [| |q|]; try discriminate.
      unfold Num.ltb. simpl. intros Ne.
      apply Qeq_bool_iff in Ne. apply Qeq_sym in Ne. apply Qeq_alt in Ne.
      now rewrite Ne.
    + rewrite (ltb_total bVal aVal Nb Na)
        by (now rewrite numEq_sym).
      destruct (Num.ltb bVal aVal), (String.eqb k "instRank"); simpl;
        repeat split; auto; discriminate.
Qed.

(** ** The sign-in dialog *)

Section AuthFacts.
Import Auth.

Lemma agrees_labelled (mode : bool) (d : string) : agrees (labelled mode d).
Proof. reflexivity. Qed.

Lemma step_agrees (ev : event) (st : state) :
  agrees st \/ setsMode ev = true -> agrees (fst (step ev st)).
Proof.
  assert (Hclose : agrees st -> agrees (closeModal st)).
  { unfold agrees, closeModal, labelled. destruct st as [m d s t l]. simpl.
    intros [= -> -> ->]. reflexivity. }
  intros H. destruct ev; simpl; try apply agrees_labelled.
  - destruct H as [H|H]; [now apply Hclose | discriminate H].
  - destruct H as [H|H]; [now apply Hclose | discriminate H].
  - destruct H as [H|H]; [exact H | discriminate H].
  - destruct H as [H|H]; [|discriminate H].
    destruct success, (isLoginMode st); simpl;
      first [exact H | apply agrees_labelled].
Qed.

Lemma run_agrees (evs : list event) (st : state) :
  agrees st -> agrees (fst (run evs st)).
Proof.
  revert st. induction evs as [|ev evs IH]; intros st H; [exact H|].
  simpl. pose proof (step_agrees ev st (or_introl H)) as H1.
  destruct (step ev st) as [st1 out1]. simpl in H1.
  specialize (IH st1 H1).
  destruct (run evs st1) as [st2 out2]. exact IH.
Qed.

Lemma run_app (evs1 evs2 : list event) (st : state) :
  fst (run (evs1 ++ evs2) st) = fst (run evs2 (fst (run evs1 st))).
Proof.
  revert st. induction evs1 as [|ev evs1 IH]; intros st; [reflexivity|].
  simpl. destruct (step ev st) as [st1 out1].
  specialize (IH st1).
  destruct (run (evs1 ++ evs2) st1) as [sa oa].
  destruct (run evs1 st1) as [sb ob]. simpl in *.
  exact IH.
Qed.

End AuthFacts.

(** X9.  From the first click that opens the dialog or changes its mode,
    and whatever follows, the dialog shows its mode: the submit button
    reads Login, and the line below offers to sign up, exactly when a
    submission goes to the login endpoint; otherwise it reads Sign Up,
    offers to log in, and a submission goes to the signup endpoint. *)
Theorem auth_labels_agree (st : Auth.state) (pre : list Auth.event)
    (ev : Auth.event) (post : list Auth.event) :
  setsMode ev = true ->
  let st' := fst (Auth.run (pre ++ ev :: post) st) in
  agrees st'
  /\ (endpointOf st' = "/login"
      <-> Auth.submitText st' = "Login" /\ Auth.linkText st' = "Sign Up")
  /\ (endpointOf st' = "/signup"
      <-> Auth.submitText st' = "Sign Up" /\ Auth.linkText st' = "Login").
Proof.
  intros Hev st'.
  assert (H : agrees st').
  { unfold st'. rewrite run_app. simpl.
    pose proof (step_agrees ev (fst (Auth.run pre st)) (or_intror Hev)) as H1.
    destruct (Auth.step ev (fst (Auth.run pre st))) as [st1 out1].
    simpl in H1. pose proof (run_agrees post st1 H1) as H2.
    destruct (Auth.run post st1) as [st2 out2]. exact H2. }
  split; [exact H|].
  unfold endpointOf. rewrite H.
  destruct (Auth.isLoginMode st'); simpl; split; split;
    try discriminate; auto; intros [? ?]; discriminate.
Qed.

(** A signup that succeeds, then a login. *)
Lemma auth_labels_agree_witness :
  let st := {| Auth.isLoginMode := true; Auth.display := "none";
               Auth.submitText := EmptyString; Auth.toggleText := EmptyString;
               Auth.linkText := EmptyString |} in
  Auth.run [Auth.Submit; Auth.ClickSignup; Auth.Submit;
            Auth.Response true "Welcome"; Auth.Submit] st
  = (Auth.labelled true "flex",
     [Auth.Post "/login"; Auth.Post "/signup"; Auth.Alert "Welcome";
      Auth.Post "/login"])
  /\ agrees (Auth.labelled true "flex").
Proof.
  split; [reflexivity|].
  apply (auth_labels_agree
           {| Auth.isLoginMode := true; Auth.display := "none";
              Auth.submitText := EmptyString; Auth.toggleText := EmptyString;
              Auth.linkText := EmptyString |}
           [Auth.Submit] Auth.ClickSignup
           [Auth.Submit; Auth.Response true "Welcome"; Auth.Submit]
           eq_refl).
Defined.

(** ** The map helpers *)

Section Maps.
Import Recommend.

Lemma spanDigits_spec (s : string) :
  s = fst (spanDigits s) +++ snd (spanDigits s)
  /\ Str.count (fun c => negb (Char.isDigit c)) (fst (spanDigits s)) = 0
  /\ Str.headIs Char.isDigit (snd (spanDigits s)) = false.
Proof.
  induction s as [|c s (E & Hd & Hh)]; simpl; [auto|].
  destruct (Char.isDigit c) eqn:Ec.
  - destruct (spanDigits s) as [ds rest]. simpl in *.
    rewrite Ec. simpl. rewrite <- E. auto.
  - simpl. rewrite Ec. auto.
Qed.

(** A run of digits before something that does not start with a digit is
    the longest run. *)
Lemma spanDigits_app (ds rest : string) :
  Str.count (fun c => negb (Char.isDigit c)) ds = 0 ->
  Str.headIs Char.isDigit rest = false ->
  spanDigits (ds +++ rest) = (ds, rest).
Proof.
  induction ds as [|c ds IH]; intros Hd Hr; simpl.
  - destruct rest as [|d rest]; [reflexivity|].
    simpl in Hr |- *. now rewrite Hr.
  - simpl in Hd. destruct (Char.isDigit c); [|discriminate Hd].
    now rewrite IH.
Qed.

Lemma allDigits_count (s : string) :
  allDigits s = true ->
  Str.count (fun c => negb (Char.isDigit c)) s = 0 /\ s <> EmptyString.
Proof.
  unfold allDigits. intros H. apply andb_prop in H. destruct H as [H1 H2].
  apply Nat.eqb_eq in H2. split; [exact H2|].
  destruct s; [discriminate H1 | discriminate].
Qed.

(** What [coordAt] matches has the shape of a coordinate, and stands at
    the head of the text. *)
Lemma coordAt_shape (s t r : string) :
  coordAt s = Some (t, r) -> coordShape t /\ s = t +++ r.
Proof.
  unfold coordAt.
  set (p := match s with
            | String c s' =>
                if Ascii.eqb c "-"%char then ("-", s') else (EmptyString, s)
            | EmptyString => (EmptyString, s)
            end).
  assert (Hp : s = fst p +++ snd p
               /\ (fst p = EmptyString \/ fst p = "-")).
  { unfold p. destruct s as [|c s']; [auto|].
    destruct (Ascii.eqb_spec c "-"%char) as [->|]; simpl; auto. }
  destruct p as [sign s1]. simpl in Hp. destruct Hp as [Es Hsign].
  destruct (spanDigits_spec s1) as (E1 & D1 & _).
  destruct (spanDigits s1) as [int s2]. simpl in E1, D1.
  destruct ((1 <=? String.length int) && (String.length int <=? 3)) eqn:L;
    [|discriminate].
  apply andb_prop in L. destruct L as [L1 L3].
  apply Nat.leb_le in L1, L3.
  destruct s2 as [|d s3]; [discriminate|].
  destruct (Ascii.eqb_spec d "."%char) as [->|]; [|discriminate].
  destruct (spanDigits_spec s3) as (E3 & D3 & _).
  destruct (spanDigits s3) as [frac s4]. simpl in E3, D3.
  destruct (Str.isEmpty frac) eqn:Ef; [discriminate|].
  intros [= <- <-]. split.
  - exists sign, int, frac. split; [reflexivity|].
    split; [exact Hsign|]. unfold allDigits. rewrite D1, D3, Ef.
    destruct int; [simpl in L1; lia | auto].
  - rewrite Es, E1, E3. rewrite ?append_assoc. simpl.
    rewrite ?append_assoc. reflexivity.
Qed.

(** A coordinate before something that does not start with a digit is
    matched whole. *)
Lemma coordAt_coord (t rest : string) :
  coordShape t ->
  Str.headIs Char.isDigit rest = false ->
  coordAt (t +++ rest) = Some (t, rest).
Proof.
  intros (sign & int & frac & -> & Hsign & Hi & Li & Hf) Hr.
  destruct (allDigits_count _ Hi) as [Di Ni].
  destruct (allDigits_count _ Hf) as [Df Nf].
  assert (Hint : forall x, spanDigits (int +++ String "."%char x)
                           = (int, String "."%char x)).
  { intros x. now apply spanDigits_app. }
  assert (Hfrac : spanDigits (frac +++ rest) = (frac, rest))
    by now apply spanDigits_app.
  assert (Hlen : (1 <=? String.length int) && (String.length int <=? 3) = true).
  { destruct int as [|c int]; [congruence|]. simpl.
    apply Nat.leb_le. simpl in Li. lia. }
  assert (Hd : forall c x, int = String c x -> Ascii.eqb c "-"%char = false).
  { intros c x ->. simpl in Di.
    destruct (Ascii.eqb_spec c "-"%char) as [->|]; [discriminate Di | reflexivity]. }
  destruct Hsign as [->| ->].
  - destruct int as [|c int]; [congruence|].
    specialize (Hint (frac +++ rest)).
    unfold coordAt. rewrite !append_assoc.
    cbn [append] in Hint |- *.
    rewrite (Hd c int eq_refl), Hint, Hlen, Hfrac.
    destruct frac; [congruence | reflexivity].
  - specialize (Hint (frac +++ rest)).
    unfold coordAt. rewrite !append_assoc.
    cbn [append] in Hint |- *. rewrite Ascii.eqb_refl.
    rewrite Hint, Hlen, Hfrac.
    destruct frac; [congruence | reflexivity].
Qed.

Lemma coordShape_head (t : string) :
  coordShape t -> Str.headIs Char.isSpace t = false.
Proof.
  intros (sign & int & frac & -> & Hsign & Hi & _).
  destruct (allDigits_count _ Hi) as [Di Ni].
  destruct Hsign as [->| ->]; [|reflexivity].
  destruct int as [|c int]; [congruence|]. simpl in *.
  destruct c as [[] [] [] [] [] [] [] []]; try reflexivity; discriminate Di.
Qed.

Lemma trimStart_fixed (t : string) :
  Str.headIs Char.isSpace t = false -> Str.trimStart t = t.
Proof. destruct t; simpl; [reflexivity | now intros ->]. Qed.

Lemma search_shape (s lat lon : string) :
  search s = Some (lat, lon) -> coordShape lat /\ coordShape lon.
Proof.
  induction s as [|c s IH].
  - simpl. discriminate.
  - cbn [search]. destruct (matchAt (String c s)) as [[a b]|] eqn:M.
    + intros [= <- <-]. unfold matchAt in M.
      destruct (coordAt (String c s)) as [[lat r1]|] eqn:C1; [|discriminate M].
      destruct (Str.trimStart r1) as [|d r2]; [discriminate M|].
      destruct (Ascii.eqb d ","%char); [|discriminate M].
      destruct (coordAt (Str.trimStart r2)) as [[lon r3]|] eqn:C2;
        [|discriminate M].
      injection M as <- <-.
      apply coordAt_shape in C1, C2. tauto.
    + exact IH.
Qed.

End Maps.

(** X10.  What [parseLatLonFromLocation] returns is a pair of decimal
    coordinates, each an optional minus sign, one to three digits, a dot
    and digits; and a text that is such a pair, latitude first, with a
    comma between them and whitespace around the comma at will, is read
    back as exactly that pair.  A value that is not a string gives
    nothing. *)
Theorem parseLatLonFromLocation_spec (locText : value)
    (lat lon w1 w2 : string) :
  (forall a b, Recommend.parseLatLonFromLocation locText = Some (a, b) ->
               coordShape a /\ coordShape b)
  /\ ((forall s, locText <> VStr s) ->
      Recommend.parseLatLonFromLocation locText = None)
  /\ (coordShape lat -> coordShape lon ->
      blank w1 = true -> blank w2 = true ->
      Recommend.parseLatLonFromLocation
        (VStr (lat +++ w1 +++ String ","%char (w2 +++ lon)))
      = Some (lat, lon))
  /\ Recommend.parseLatLonFromLocation (VStr "Pune 18.52 , -73.85 India")
     = Some ("18.52", "-73.85").
Proof.
  split; [|split; [|split; [|reflexivity]]].
  - intros a b. destruct locText; try discriminate. simpl.
    destruct (Str.isEmpty s); [discriminate|]. apply search_shape.
  - intros H. destruct locText; try reflexivity. now elim (H s).
  - intros Hlat Hlon B1 B2. unfold Recommend.parseLatLonFromLocation.
    assert (Hne : Str.isEmpty (lat +++ w1 +++ String ","%char (w2 +++ lon))
                  = false).
    { destruct Hlat as (sign & int & frac & -> & _ & Hi & _).
      destruct (allDigits_count _ Hi) as [_ Ni].
      destruct sign, int; simpl; congruence. }
    rewrite Hne.
    assert (M : Recommend.matchAt
                  (lat +++ w1 +++ String ","%char (w2 +++ lon))
                = Some (lat, lon)).
    { unfold Recommend.matchAt. rewrite coordAt_coord; [|exact Hlat|].
      - rewrite (trimStart_blank w1 B1). simpl.
        rewrite (trimStart_blank w2 B2).
        rewrite (trimStart_fixed lon (coordShape_head _ Hlon)).
        rewrite <- (append_empty_r lon) at 1.
        now rewrite coordAt_coord.
      - destruct w1 as [|c w1]; [reflexivity|].
        rewrite blank_cons in B1. apply andb_prop in B1. destruct B1 as [B1 _].
        simpl. revert B1.
        destruct c as [[] [] [] [] [] [] [] []]; try reflexivity; discriminate. }
    destruct (lat +++ w1 +++ String ","%char (w2 +++ lon)); [discriminate Hne|].
    cbn [Recommend.search]. now rewrite M.
Qed.

(** ** The address of the embedded map *)

Section MapsUrl.
Import Recommend.
Context {E : Engine}.

Lemma encode_cons (c : ascii) (s : string) :
  encodeURIComponent (String c s)
  = encodeURIComponent (String c EmptyString) +++ encodeURIComponent s.
Proof. simpl. now rewrite append_empty_r. Qed.

Lemma encode_unit_safe (c : ascii) :
  Str.count breaksQuery (encodeURIComponent (String c EmptyString)) = 0.
Proof. destruct c as [[] [] [] [] [] [] [] []]; reflexivity. Qed.

(** No encoded text holds a character that breaks a query. *)
Lemma encode_safe (s : string) :
  Str.count breaksQuery (encodeURIComponent s) = 0.
Proof.
  induction s as [|c s IH]; [reflexivity|].
  now rewrite encode_cons, count_append, encode_unit_safe, IH.
Qed.

Lemma digits_safe (s : string) :
  Str.count (fun c => negb (Char.isDigit c)) s = 0 ->
  Str.count breaksQuery s = 0.
Proof.
  induction s as [|c s IH]; [reflexivity|]. simpl. intros H.
  assert (Hc : Char.isDigit c = true)
    by (destruct (Char.isDigit c); [reflexivity | discriminate H]).
  rewrite Hc in H. rewrite (IH H).
  revert Hc. destruct c as [[] [] [] [] [] [] [] []]; try discriminate;
    reflexivity.
Qed.

Lemma coord_safe (t : string) : coordShape t -> Str.count breaksQuery t = 0.
Proof.
  intros (sign & int & frac & -> & Hsign & Hi & _ & Hf).
  destruct (allDigits_count _ Hi) as [Di _].
  destruct (allDigits_count _ Hf) as [Df _].
  rewrite !count_append. simpl.
  rewrite (digits_safe _ Di), (digits_safe _ Df).
  destruct Hsign as [->| ->]; reflexivity.
Qed.

End MapsUrl.

(** X11.  The address [mapsEmbedUrlForItem] returns is always the address
    of the map service with one query value between [q=] and
    [&output=embed], and no character of that value can end or split it or
    open markup: whatever text the record holds is encoded, and a pair of
    coordinates holds only digits, dots, minus signs and a comma.  The
    function throws on an item that is [null] or [undefined], and on a
    location that is neither falsy nor a string and has no function under
    [trim], such as a number. *)
Theorem mapsEmbedUrlForItem_spec {E : Engine} (item : value) :
  (forall url,
     Recommend.mapsEmbedUrlForItem item = Recommend.Returns url ->
     exists q, url = Recommend.mapsBase +++ q +++ Recommend.mapsTail
               /\ Str.count breaksQuery q = 0)
  /\ (Val.isNullish item = true ->
      Recommend.mapsEmbedUrlForItem item = Recommend.Throws)
  /\ (Val.isNullish item = false ->
      Val.falsy (locationOf item) = false ->
      (forall s, locationOf item <> VStr s) ->
      (forall f, Val.prop (locationOf item) "trim" <> VBuiltin f) ->
      Recommend.mapsEmbedUrlForItem item = Recommend.Throws)
  /\ Recommend.mapsEmbedUrlForItem (E := intEngine)
       (VObj [("Location", VStr "Pune, <MH> & more")])
     = Recommend.Returns
         "https://www.google.com/maps?q=Pune%2C%20%3CMH%3E%20%26%20more&output=embed"
  /\ Recommend.mapsEmbedUrlForItem (E := intEngine)
       (VObj [("District", VStr "near 18.52 , 73.85"); ("Institute", VStr "X")])
     = Recommend.Returns "https://www.google.com/maps?q=18.52,73.85&output=embed"
  /\ Recommend.mapsEmbedUrlForItem (E := intEngine)
       (VObj [("Location", VNum (Fin 5))])
     = Recommend.Throws.
Proof.
  split; [|split; [|split; [|repeat split; reflexivity]]].
  3: { unfold Recommend.mapsEmbedUrlForItem, locationOf.
       intros -> F S T. cbv zeta.
       set (L := Val.prop item "Location") in *.
       set (D := Val.prop item "District") in *.
       assert (Hloc : Recommend.orElse L
                        (Recommend.orElse L
                           (Recommend.orElse D
                              (Recommend.orElse D (VStr EmptyString))))
                      = Recommend.orElse L
                          (Recommend.orElse D (VStr EmptyString))).
       { unfold Recommend.orElse. destruct (Val.falsy L), (Val.falsy D);
           reflexivity. }
       rewrite Hloc. revert F S T.
       generalize (Recommend.orElse L (Recommend.orElse D (VStr EmptyString))).
       intros loc F S T.
       destruct (Recommend.parseLatLonFromLocation loc) as [[lat lon]|] eqn:P.
       - destruct loc; try discriminate P. now elim (S s).
       - rewrite F. destruct loc; try discriminate F;
           try (now elim (S s));
           destruct (Val.prop _ "trim") eqn:T'; try reflexivity;
           match goal with |- Recommend.CallsTrim ?f = _ => now elim (T f) end. }
  2: { unfold Recommend.mapsEmbedUrlForItem. now intros ->. }
  unfold Recommend.mapsEmbedUrlForItem.
  destruct (Val.isNullish item) eqn:Hn; [discriminate|].
  cbv zeta.
  set (L := Val.prop item "Location").
  set (D := Val.prop item "District").
  set (loc := Recommend.orElse L _).
  set (name := Recommend.orElse (Val.prop item "Institute") _).
  destruct (Recommend.parseLatLonFromLocation loc) as [[lat lon]|] eqn:P.
  - assert (Hs : exists s, loc = VStr s /\ Str.isEmpty s = false).
    { destruct loc; try discriminate P. simpl in P.
      destruct (Str.isEmpty s) eqn:Es; [discriminate P|]. now exists s. }
    destruct Hs as (s & Hs & Es).
    intros url H.
    exists (lat +++ "," +++ lon). split.
    { injection H as <-. rewrite ?append_assoc. reflexivity. }
    rewrite Hs in P. simpl in P. rewrite Es in P.
    destruct (search_shape s lat lon P) as [H1 H2].
    rewrite !count_append, (coord_safe _ H1), (coord_safe _ H2).
    reflexivity.
  - destruct (Val.falsy loc) eqn:F.
    + intros url H. eexists. split; [injection H as <-; reflexivity|].
      apply encode_safe.
    + destruct loc eqn:El; try discriminate F;
        try (destruct (Val.prop _ "trim"); discriminate).
      destruct (negb (Str.isEmpty (Str.trim s)));
        intros url H; eexists; (split; [injection H as <-; reflexivity|]);
        apply encode_safe.
Qed.

(** ** The sort controls *)

Section ControlsFacts.
Import Recommend.
Context {E : Engine}.
Hypothesis conforms : Sort.conforming E.





End ControlsFacts.


